(** * Serializable verbs of arquero-query: [src/query/verb.js]

    A verb object carries a verb name, a parameter schema and one own
    property per schema entry.  The class [Verb] builds it from positional
    parameters, evaluates it against a table and a catalog, and serialises
    it to a plain object or to a syntax tree.  The helpers of [./util],
    [./constants] and [./to-ast] are imported by the file but are not part
    of it: the class is embedded over them as section variables, and the
    modules [Util] and [ToAst] give the helpers that the statements about
    them need. *)

From stdpp Require Import base option list strings gmap pretty.
From Stdlib Require Import ZArith Lia.

Local Open Scope string_scope.
Set Warnings "-register-all".

(** ** JavaScript values *)

(** The values that flow through a verb.  Numbers are the integers (the
    code never computes with them), a callable carries the source text
    attached to it, if any, and a live table handle is identified by the
    name of the table it stands for. *)
Inductive jsval : Type :=
| VUndef
| VNull
| VBool (b : bool)
| VNum (n : Z)
| VStr (s : string)
| VArr (items : list jsval)
| VObj (props : list (string * jsval))
| VFunc (src : option string)
| VTable (name : string).

(** Errors.  [TypeError] is the one the runtime raises by itself; the
    others are the error kinds a helper may raise. *)
Inductive error : Type :=
| TypeError
| UnknownVerbError
| UnresolvedTableError
| UnparsableExpressionError
| MismatchedJoinArityError.

Inductive result (A : Type) : Type :=
| Ok (a : A)
| Throw (e : error).

Arguments Ok {A} a.
Arguments Throw {A} e.

Definition rbind {A B} (r : result A) (k : A -> result B) : result B :=
  match r with
  | Ok a => k a
  | Throw e => Throw e
  end.

(** [l.map(f)] where [f] may throw: the first throw ends the traversal. *)
Fixpoint rmap {A B} (f : A -> result B) (l : list A) : result (list B) :=
  match l with
  | [] => Ok []
  | x :: l' =>
      rbind (f x) (fun y => rbind (rmap f l') (fun ys => Ok (y :: ys)))
  end.

(** ** Plain objects: insertion-ordered own properties *)

Definition object := list (string * jsval).

Fixpoint obj_get (o : object) (k : string) : jsval :=
  match o with
  | [] => VUndef
  | (k', v) :: o' => if String.eqb k' k then v else obj_get o' k
  end.

(** [o[k] = v] for a string key [k]: an existing property keeps its place,
    a new one goes last.  (An integer index is enumerated before the string
    keys, and [__proto__] is no property of its own; statements about the
    order of the properties exclude such names.) *)
Fixpoint obj_set (o : object) (k : string) (v : jsval) : object :=
  match o with
  | [] => [(k, v)]
  | (k', v') :: o' =>
      if String.eqb k' k then (k', v) :: o' else (k', v') :: obj_set o' k v
  end.

(** ** Parameter kinds and schemas *)

(** The ten constants imported from [./constants]; the code only compares
    them with [===], so they are modelled as ten distinct tags. *)
Inductive kind : Type :=
| Expr
| ExprList
| ExprNumber
| ExprObject
| JoinKeys
| JoinValues
| Options
| OrderbyKeys
| TableRef
| TableRefList.

Definition kind_eqb (a b : kind) : bool :=
  match a, b with
  | Expr, Expr | ExprList, ExprList | ExprNumber, ExprNumber
  | ExprObject, ExprObject | JoinKeys, JoinKeys | JoinValues, JoinValues
  | Options, Options | OrderbyKeys, OrderbyKeys | TableRef, TableRef
  | TableRefList, TableRefList => true
  | _, _ => false
  end.

(** A schema entry [{ name, type, default, props }].  An entry without
    [default] has [default = VUndef]; one without [props] has [props = None]. *)
Record field : Type := Field {
  name : string;
  type : kind;
  default : jsval;
  props : option (list (string * kind))
}.

Abbreviation schema_t := (list field).

(** ** The verb object *)

(** The own properties of a [Verb] instance: [verb], [schema], and one
    property per schema entry.  Schema entries name parameters; the two
    names [verb] and [schema] are kept apart from them. *)
Record Verb : Type := MkVerb {
  verb : string;
  schema : schema_t;
  fields : gmap string jsval
}.

(** [this[name]]: an own property, or [undefined]. *)
Definition get_field (this : Verb) (k : string) : jsval :=
  from_option id VUndef (fields this !! k).

(** [this[name] = v], for a name other than [verb], [schema] and
    [__proto__] (statements about a constructed verb exclude those
    names). *)
Definition set_field (this : Verb) (k : string) (v : jsval) : Verb :=
  MkVerb (verb this) (schema this) (<[k := v]> (fields this)).

(** Methods run against the instance and may throw: the instance is
    threaded through, and it survives a throw. *)
Definition M (A : Type) : Type := Verb -> result A * Verb.

Definition ret {A} (a : A) : M A := fun this => (Ok a, this).

Definition bind {A B} (m : M A) (k : A -> M B) : M B :=
  fun this =>
    match m this with
    | (Ok a, this') => k a this'
    | (Throw e, this') => (Throw e, this')
    end.

Definition lift {A} (r : result A) : M A := fun this => (r, this).

Definition read {A} (f : Verb -> A) : M A := fun this => (Ok (f this), this).

Definition write (k : string) (v : jsval) : M unit :=
  fun this => (Ok tt, set_field this k v).

Notation "x <- m ;; k" := (bind m (fun x => k))
  (at level 100, m at level 99, right associativity).

(** [l.forEach((s, index) => body)], from index [i] on. *)
Fixpoint forEach_from {A} (i : nat) (l : list A) (body : A -> nat -> M unit)
  : M unit :=
  match l with
  | [] => ret tt
  | s :: l' => _ <- body s i ;; forEach_from (S i) l' body
  end.

Definition forEach {A} (l : list A) (body : A -> nat -> M unit) : M unit :=
  forEach_from 0 l body.

(** [l.map(s => body)] inside a method. *)
Fixpoint mapM {A B} (body : A -> M B) (l : list A) : M (list B) :=
  match l with
  | [] => ret []
  | s :: l' => y <- body s ;; ys <- mapM body l' ;; ret (y :: ys)
  end.

(** [value.map(f)]: element-wise on an array.  The other values of this
    universe have no callable [map], so the call is a [TypeError]
    (a record that carries a [map] function of its own is not modelled). *)
Definition Array_map (v : jsval) (f : jsval -> result jsval) : result jsval :=
  match v with
  | VArr items => rbind (rmap f items) (fun ys => Ok (VArr ys))
  | _ => Throw TypeError
  end.

(** ** ToString and property keys *)

(** [String(v)], as a property access [o[v]] computes it (integers below
    10^21 in magnitude print in decimal). *)
Fixpoint to_string (v : jsval) : string :=
  match v with
  | VUndef => "undefined"
  | VNull => "null"
  | VBool true => "true"
  | VBool false => "false"
  | VNum n => pretty n
  | VStr s => s
  | VArr items =>
      String.concat ","
        (map (fun x => match x with
                       | VUndef | VNull => ""
                       | _ => to_string x
                       end) items)
  | VObj _ => "[object Object]"
  | VFunc (Some src) => src
  | VFunc None => "function () { [native code] }"
  | VTable _ => "[object Object]"
  end.

(** [value !== undefined]. *)
Definition is_undefined (v : jsval) : bool :=
  match v with
  | VUndef => true
  | _ => false
  end.

(** [params[index]]. *)
Definition nth_param (params : list jsval) (index : nat) : jsval :=
  from_option id VUndef (params !! index).

(** ** The verb classes built by [createVerb], and the registry *)

(** What [createVerb(name, schema)] closes over: the verb name and the
    schema, which is [undefined] for a verb without parameters. *)
Record verbclass : Type := VerbClass {
  c_name : string;
  c_schema : option schema_t
}.

(** What [Verbs[key]] can be: one of the registered classes, or a property
    inherited from [Object.prototype] ([constructor] is [Object]; the others
    are methods or the prototype itself, none of which can be constructed),
    or [undefined]. *)
Inductive entry : Type :=
| EClass (c : verbclass)
| EObject
| ENotConstructor
| EUndefined.

(** What [new Type(...params)] returns in [Verb.from]: a verb, or the empty
    object that [new Object()] makes. *)
Inductive instance : Type :=
| IVerb (v : Verb)
| IObject (o : object).

(** [createVerb(name, schema)], lines 110-119: the class it returns is
    known by what it closes over. *)
Definition createVerb (name : string) (schema : option schema_t) : verbclass :=
  VerbClass name schema.

(** A schema entry with neither [default] nor [props]. *)
Definition fld (name : string) (type : kind) : field :=
  Field name type VUndef None.

(** Lines 121-228. *)
Definition Reify := createVerb "reify" None.
Definition Count := createVerb "count" (Some [fld "options" Options]).
Definition Dedupe :=
  createVerb "dedupe" (Some [Field "keys" ExprList (VArr []) None]).
Definition Derive := createVerb "derive" (Some [fld "values" ExprObject]).
Definition Filter := createVerb "filter" (Some [fld "criteria" ExprObject]).
Definition Groupby := createVerb "groupby" (Some [fld "keys" ExprList]).
Definition Orderby := createVerb "orderby" (Some [fld "keys" OrderbyKeys]).
Definition Rollup := createVerb "rollup" (Some [fld "values" ExprObject]).
Definition Sample :=
  createVerb "sample"
    (Some [fld "size" ExprNumber;
           Field "options" Options VUndef (Some [("weight", Expr)])]).
Definition Select := createVerb "select" (Some [fld "columns" ExprList]).
Definition Ungroup := createVerb "ungroup" None.
Definition Unorder := createVerb "unorder" None.
Definition Fold :=
  createVerb "fold" (Some [fld "values" ExprList; fld "options" Options]).
Definition Pivot :=
  createVerb "pivot"
    (Some [fld "keys" ExprList; fld "values" ExprList;
           fld "options" Options]).
Definition Spread :=
  createVerb "spread" (Some [fld "values" ExprList; fld "options" Options]).
Definition Unroll :=
  createVerb "unroll"
    (Some [fld "values" ExprList;
           Field "options" Options VUndef (Some [("drop", ExprList)])]).
Definition Lookup :=
  createVerb "lookup"
    (Some [fld "table" TableRef; fld "on" JoinKeys;
           fld "values" ExprList]).
Definition Join :=
  createVerb "join"
    (Some [fld "table" TableRef; fld "on" JoinKeys;
           fld "values" JoinValues; fld "options" Options]).
Definition Cross :=
  createVerb "cross"
    (Some [fld "table" TableRef; fld "values" JoinValues;
           fld "options" Options]).
Definition Semijoin :=
  createVerb "semijoin" (Some [fld "table" TableRef; fld "on" JoinKeys]).
Definition Antijoin :=
  createVerb "antijoin" (Some [fld "table" TableRef; fld "on" JoinKeys]).
Definition Concat := createVerb "concat" (Some [fld "tables" TableRefList]).
Definition Union := createVerb "union" (Some [fld "tables" TableRefList]).
Definition Intersect :=
  createVerb "intersect" (Some [fld "tables" TableRefList]).
Definition Except := createVerb "except" (Some [fld "tables" TableRefList]).

(** The lookup table [Verbs], lines 233-258: its own properties. *)
Definition Verbs : list (string * verbclass) :=
  [ ("count", Count); ("dedupe", Dedupe); ("derive", Derive);
    ("filter", Filter); ("groupby", Groupby); ("orderby", Orderby);
    ("rollup", Rollup); ("sample", Sample); ("select", Select);
    ("ungroup", Ungroup); ("unorder", Unorder); ("fold", Fold);
    ("pivot", Pivot); ("spread", Spread); ("unroll", Unroll);
    ("lookup", Lookup); ("join", Join); ("cross", Cross);
    ("semijoin", Semijoin); ("antijoin", Antijoin); ("concat", Concat);
    ("union", Union); ("intersect", Intersect); ("except", Except) ].

Fixpoint own_class (table : list (string * verbclass)) (key : string)
  : option verbclass :=
  match table with
  | [] => None
  | (k, c) :: table' =>
      if String.eqb k key then Some c else own_class table' key
  end.

(** The properties an object literal inherits, [constructor] apart. *)
Definition prototype_names : list string :=
  [ "__defineGetter__"; "__defineSetter__"; "hasOwnProperty";
    "__lookupGetter__"; "__lookupSetter__"; "isPrototypeOf";
    "propertyIsEnumerable"; "toString"; "valueOf"; "__proto__";
    "toLocaleString" ].

(** [Verbs[key]]. *)
Definition Verbs_get (key : string) : entry :=
  match own_class Verbs key with
  | Some c => EClass c
  | None =>
      if String.eqb key "constructor" then EObject
      else if existsb (String.eqb key) prototype_names then ENotConstructor
      else EUndefined
  end.

(** A call of one of the three methods of an instance. *)
Inductive call : Type :=
| CallEvaluate (table : string -> list jsval -> result jsval)
    (catalog : jsval -> jsval)
| CallToObject
| CallToAST.

(** ** The helpers of [./util] *)

Module Util.

(** Modelled from the spec: what counts as a table the catalog returns
    (section 6: the catalog maps a name to a table). *)
Definition is_table (v : jsval) : bool :=
  match v with
  | VTable _ => true
  | _ => false
  end.

(** Modelled from the spec: [getTable] of [./util], which [verb.js]
    imports and which is not part of it.  Section 4.3: the stored
    reference is replaced by what the catalog returns for it, and the
    lookup fails with [UnresolvedTableError] if the catalog returns no
    table. *)
Definition getTable (catalog : jsval -> jsval) (ref : jsval) : result jsval :=
  if is_table (catalog ref) then Ok (catalog ref)
  else Throw UnresolvedTableError.

(** Modelled from the spec: the canonical form [{left, right}] of
    section 3. *)
Definition sides (lhs rhs : list jsval) : jsval :=
  VObj [("left", VArr lhs); ("right", VArr rhs)].

(** Modelled from the spec: [joinKeys] of [./util], which [verb.js]
    imports and which is not part of it.  Section 4.1: a 2-element array
    of arrays is the left list and the right list, an error if they
    differ in length; an array of names is used for both sides; a single
    name is used for both sides. *)
Definition joinKeys (input : jsval) : result jsval :=
  match input with
  | VArr [VArr lhs; VArr rhs] =>
      if Nat.eqb (length lhs) (length rhs) then Ok (sides lhs rhs)
      else Throw MismatchedJoinArityError
  | VArr names => Ok (sides names names)
  | single => Ok (sides [single] [single])
  end.

(** Modelled from the spec: [toObject] of [./util], which [verb.js]
    imports and which is not part of it.  Section 4.4: plain data passes
    through, a bare name stays a string, a callable becomes a descriptor
    object carrying its source text (the metadata is left out, and a
    callable without source text gives a descriptor without one), records
    and arrays are serialized recursively, and a table is serialized to
    its name string only. *)
Fixpoint toObject (value : jsval) : jsval :=
  match value with
  | VFunc (Some src) => VObj [("expr", VStr src)]
  | VFunc None => VObj []
  | VTable name => VStr name
  | VArr items => VArr (map toObject items)
  | VObj props => VObj (map (fun kv => (fst kv, toObject (snd kv))) props)
  | plain => plain
  end.

End Util.

(** ** The helper of [./to-ast] *)

Module ToAst.
Section Parser.

(** The external expression parser of section 6: source text to tree. *)
Variable parse : string -> jsval.

(** Modelled from the spec: a literal node of section 4.5, for plain
    data and table names. *)
Definition literal (v : jsval) : jsval :=
  VObj [("type", VStr "Literal"); ("value", v)].

(** Modelled from the spec: the source text an expression of section 3
    can be parsed from, which is a bare name, the text attached to a
    callable, or the [expr] of a descriptor. *)
Definition source_text (e : jsval) : option string :=
  match e with
  | VStr name => Some name
  | VFunc src => src
  | VObj props =>
      match obj_get props "expr" with
      | VStr text => Some text
      | _ => None
      end
  | _ => None
  end.

(** Modelled from the spec: the three forms of an expression in
    section 3 (a name, a callable, a descriptor). *)
Definition is_expression (e : jsval) : bool :=
  match e with
  | VStr _ | VFunc _ | VObj _ => true
  | _ => false
  end.

(** Modelled from the spec: section 4.5, an expression goes through the
    parser and fails when it has no retrievable source text; plain data
    is a literal node. *)
Definition expression (e : jsval) : result jsval :=
  if is_expression e then
    match source_text e with
    | Some text => Ok (parse text)
    | None => Throw UnparsableExpressionError
    end
  else Ok (literal e).

Definition expressions (v : jsval) : result jsval :=
  match v with
  | VArr items => rbind (rmap expression items) (fun ns => Ok (VArr ns))
  | single => expression single
  end.

Fixpoint entries (f : jsval -> result jsval) (props : object)
  : result object :=
  match props with
  | [] => Ok []
  | (k, v) :: props' =>
      rbind (f v) (fun n =>
        rbind (entries f props') (fun ns => Ok ((k, n) :: ns)))
  end.

Definition expression_map (v : jsval) : result jsval :=
  match v with
  | VObj props => rbind (entries expression props) (fun ns => Ok (VObj ns))
  | single => expression single
  end.

Definition orderby_child (v : jsval) : result jsval :=
  match v with
  | VObj props =>
      rbind (expression (obj_get props "expr")) (fun n =>
        Ok (VObj [("expr", n); ("direction", obj_get props "direction")]))
  | other => expression other
  end.

(** Modelled from the spec: section 4.5 for a field whose kind is not the
    option bag. *)
Definition node (value : jsval) (type : kind) : result jsval :=
  match type with
  | Expr | ExprNumber => expression value
  | ExprList => expressions value
  | ExprObject => expression_map value
  | JoinKeys | JoinValues =>
      match value with
      | VObj props =>
          rbind (expressions (obj_get props "left")) (fun l =>
            rbind (expressions (obj_get props "right")) (fun r =>
              Ok (VObj [("left", l); ("right", r)])))
      | other => Ok (literal other)
      end
  | OrderbyKeys =>
      match value with
      | VArr items =>
          rbind (rmap orderby_child items) (fun ns => Ok (VArr ns))
      | other => Ok (literal other)
      end
  | TableRef => Ok (literal value)
  | TableRefList =>
      match value with
      | VArr items => Ok (VArr (map literal items))
      | other => Ok (literal other)
      end
  | Options => Ok (literal value)
  end.

Fixpoint sub_kind (props : list (string * kind)) (k : string) : option kind :=
  match props with
  | [] => None
  | (k', t) :: props' => if String.eqb k' k then Some t else sub_kind props' k
  end.

Fixpoint option_nodes (props : list (string * kind)) (options : object)
  : result object :=
  match options with
  | [] => Ok []
  | (k, v) :: options' =>
      rbind (match sub_kind props k with
             | Some t => node v t
             | None => Ok (literal v)
             end) (fun n =>
        rbind (option_nodes props options') (fun ns => Ok ((k, n) :: ns)))
  end.

(** Modelled from the spec: [toAST] of [./to-ast], which [verb.js]
    imports and which is not part of it.  Section 4.5: expression kinds
    are parsed from their source text; join and orderby specs become
    composite nodes whose leaves are parsed as expressions; an option bag
    becomes a node per option, parsed as an expression where the schema
    says so and kept as a literal otherwise; table references become name
    literals; and an expression without retrievable source text fails
    with [UnparsableExpressionError]. *)
Definition toAST (value : jsval) (type : kind)
  (props : option (list (string * kind))) : result jsval :=
  match type, value with
  | Options, VObj options =>
      rbind (option_nodes (from_option id [] props) options)
        (fun ns => Ok (VObj ns))
  | _, _ => node value type
  end.

(** An expression that has no retrievable source text. *)
Definition sourceless (e : jsval) : bool :=
  is_expression e &&
  match source_text e with
  | Some _ => false
  | None => true
  end.

Definition expression_kind (type : kind) : bool :=
  match type with
  | Expr | ExprList | ExprNumber | ExprObject => true
  | _ => false
  end.

(** A field of an expression kind holds such an expression: as the
    expression itself, as an element of the list, or as a value of the
    map. *)
Definition holds_sourceless (type : kind) (value : jsval) : bool :=
  expression_kind type &&
  match type, value with
  | ExprList, VArr items => existsb sourceless items
  | ExprObject, VObj props => existsb (fun kv => sourceless (snd kv)) props
  | _, e => sourceless e
  end.

End Parser.
End ToAst.

(** ** Predicates the statements use *)

(** The argument the claim describes for a field: the catalog's answer for
    a table reference, the catalog's answers element by element for a list
    of table references, the stored value otherwise. *)
Definition replaced (catalog : jsval -> jsval) (type : kind) (value : jsval)
  : jsval :=
  match type with
  | TableRef => catalog value
  | TableRefList =>
      match value with
      | VArr items => VArr (map catalog items)
      | _ => value
      end
  | _ => value
  end.

(** Every lookup the field asks for finds a table (and a list of table
    references is an array). *)
Definition lookups_ok (catalog : jsval -> jsval) (type : kind) (value : jsval)
  : bool :=
  match type with
  | TableRef => Util.is_table (catalog value)
  | TableRefList =>
      match value with
      | VArr items => forallb (fun t => Util.is_table (catalog t)) items
      | _ => false
      end
  | _ => true
  end.

(** No callable and no live table handle, at any depth. *)
Fixpoint transportable (v : jsval) : bool :=
  match v with
  | VFunc _ | VTable _ => false
  | VArr items => forallb transportable items
  | VObj props => forallb (fun kv => transportable (snd kv)) props
  | _ => true
  end.

Definition is_throw {A} (r : result A) : bool :=
  match r with
  | Ok _ => false
  | Throw _ => true
  end.

(** [r] returns, or throws [e0]. *)
Definition throws_only {A} (e0 : error) (r : result A) : Prop :=
  forall e, r = Throw e -> e = e0.

Definition registered : list string := map fst Verbs.

(** The kinds line 45 passes as they are. *)
Definition passes_through (type : kind) : bool :=
  negb (kind_eqb type JoinKeys || kind_eqb type JoinValues
        || kind_eqb type OrderbyKeys).

(** What the registry gives for each of its classes: the class is
    registered under its own verb name, its fields have distinct names,
    none of them [verb], and a default is only given to a field that no
    normalizer touches. *)
Definition well_formed (c : verbclass) : Prop :=
  own_class Verbs (c_name c) = Some c
  /\ NoDup (map name (from_option id [] (c_schema c)))
  /\ ("verb" ∉ map name (from_option id [] (c_schema c)))
  /\ Forall (fun s => default s = VUndef \/ passes_through (type s) = true)
       (from_option id [] (c_schema c)).

(** A helper that returns its argument. *)
Definition pass (v : jsval) : result jsval := Ok v.

Definition makes_verb (r : result instance) : bool :=
  match r with
  | Ok (IVerb _) => true
  | _ => false
  end.

(** [value ?? default]. *)
Definition nullish_or (value default : jsval) : jsval :=
  match value with
  | VUndef | VNull => default
  | _ => value
  end.

(** Names that are not those of ordinary field properties: the two own
    properties every verb has, and [__proto__]. *)
Definition reserved (k : string) : bool :=
  String.eqb k "verb" || String.eqb k "schema" || String.eqb k "__proto__".

(** A schema all of whose entries name ordinary properties. *)
Definition ordinary (sch : schema_t) : bool :=
  forallb (fun s => negb (reserved (name s))) sch.

(** A name JavaScript treats as an integer index, and enumerates before
    the string keys whatever the order of insertion: here every non-empty
    string of decimal digits, which includes all of them. *)
Definition is_digit (a : Ascii.ascii) : bool :=
  (48 <=? Ascii.nat_of_ascii a)%nat && (Ascii.nat_of_ascii a <=? 57)%nat.

Fixpoint all_digits (k : string) : bool :=
  match k with
  | EmptyString => true
  | String a k' => is_digit a && all_digits k'
  end.

Definition index_like (k : string) : bool :=
  match k with
  | EmptyString => false
  | String _ _ => all_digits k
  end.

(** A schema whose names an object keeps in the order they are set:
    ordinary names, none of them an integer index. *)
Definition kept_in_order (sch : schema_t) : bool :=
  forallb (fun s => negb (reserved (name s)) && negb (index_like (name s)))
    sch.

(** The values on which [value.map] is not a function. *)
Definition primitive (v : jsval) : bool :=
  match v with
  | VUndef | VNull | VBool _ | VNum _ | VStr _ => true
  | _ => false
  end.

(** The kinds [evaluate] resolves through the catalog, lines 73-74. *)
Definition table_kind (type : kind) : bool :=
  kind_eqb type TableRef || kind_eqb type TableRefList.

(** ** Concrete verbs *)

Definition sample_catalog (ref : jsval) : jsval :=
  match ref with
  | VStr name => VTable name
  | _ => VUndef
  end.

Definition sample_table (method : string) (args : list jsval) : result jsval :=
  Ok (VArr (VStr method :: args)).

Definition sample_parse (text : string) : jsval :=
  VObj [("type", VStr "Expression"); ("source", VStr text)].

Definition sample_concat : Verb :=
  MkVerb "concat" [fld "tables" TableRefList]
    {[ "tables" := VArr [VStr "a"; VStr "b"] ]}.

Definition sample_filter : Verb :=
  MkVerb "filter" [fld "criteria" ExprObject]
    {[ "criteria" := VObj [("p", VFunc None)] ]}.

Definition semijoin_schema : schema_t :=
  [fld "table" TableRef; fld "on" JoinKeys].

(** A helper that refuses callables. *)
Definition reject_callable (v : jsval) : result jsval :=
  match v with
  | VFunc _ => Throw TypeError
  | _ => Ok v
  end.

(** [new Concat()]: the list of tables was not given. *)
Definition sample_concat_empty : Verb :=
  MkVerb "concat" [fld "tables" TableRefList] {[ "tables" := VUndef ]}.

(** A verb built with [new Verb("custom", schema, params)]. *)
Definition sample_custom : Verb :=
  MkVerb "custom" [fld "keys" ExprList] {[ "keys" := VArr [VStr "a"] ]}.

(** A filter whose criteria is a callable. *)
Definition sample_filter_callable : Verb :=
  MkVerb "filter" [fld "criteria" ExprObject] {[ "criteria" := VFunc None ]}.

(** A helper that turns a descriptor [{expr: text}] back into a callable
    with that source text, and returns anything else as it is. *)
Definition revive (v : jsval) : result jsval :=
  match v with
  | VObj [("expr", VStr text)] => Ok (VFunc (Some text))
  | _ => Ok v
  end.

(** What a filter on a callable with source text serializes to. *)
Definition sample_filter_wire : object :=
  [("verb", VStr "filter");
   ("criteria", VObj [("expr", VStr "d => d.x > 1")])].

Definition sample_join_params : list jsval :=
  [VStr "other"; VArr [VArr [VStr "a"]; VArr [VStr "c"; VStr "d"]]].

Definition sample_filter_object : object :=
  [("verb", VStr "filter"); ("criteria", VFunc None)].

(** ** Induction on values *)

Section jsval_induction.
Variable P : jsval -> Prop.
Hypothesis HUndef : P VUndef.
Hypothesis HNull : P VNull.
Hypothesis HBool : forall b, P (VBool b).
Hypothesis HNum : forall n, P (VNum n).
Hypothesis HStr : forall s, P (VStr s).
Hypothesis HArr : forall items, Forall P items -> P (VArr items).
Hypothesis HObj :
  forall props, Forall (fun kv => P (snd kv)) props -> P (VObj props).
Hypothesis HFunc : forall src, P (VFunc src).
Hypothesis HTable : forall name, P (VTable name).

Fixpoint jsval_nested_ind (v : jsval) : P v :=
  match v with
  | VUndef => HUndef
  | VNull => HNull
  | VBool b => HBool b
  | VNum n => HNum n
  | VStr s => HStr s
  | VArr items =>
      HArr items
        ((fix go (l : list jsval) : Forall P l :=
            match l with
            | [] => List.Forall_nil P
            | x :: l' => List.Forall_cons P x l' (jsval_nested_ind x) (go l')
            end) items)
  | VObj props =>
      HObj props
        ((fix go (l : list (string * jsval))
            : Forall (fun kv => P (snd kv)) l :=
            match l with
            | [] => List.Forall_nil _
            | kv :: l' =>
                List.Forall_cons (fun kv => P (snd kv)) kv l'
                  (jsval_nested_ind (snd kv)) (go l')
            end) props)
  | VFunc src => HFunc src
  | VTable name => HTable name
  end.
End jsval_induction.

(** ** The class [Verb] *)

Section VerbJs.

(** Imported from [./util]. *)
Variable util_toObject : jsval -> result jsval.

Variable util_fromObject : jsval -> result jsval.

Variable getTable : (jsval -> jsval) -> jsval -> result jsval.

Variable joinKeys : jsval -> result jsval.

Variable joinValues : jsval -> result jsval.

Variable orderbyKeys : jsval -> result jsval.

(** Imported from [./to-ast]. *)
Variable ast_toAST :
  jsval -> kind -> option (list (string * kind)) -> result jsval.

(** The conditional of lines 42-45: the normalizer the kind asks for. *)
Definition normalize (type : kind) (param : jsval) : result jsval :=
  if kind_eqb type JoinKeys then joinKeys param
  else if kind_eqb type JoinValues then joinValues param
  else if kind_eqb type OrderbyKeys then orderbyKeys param
  else Ok param.

(** Line 46: [value !== undefined ? value : s.default]. *)
Definition stored (s : field) (value : jsval) : jsval :=
  if is_undefined value then default s else value.

(** [constructor(verb, schema = [], params = [])], lines 36-48. *)
Definition assign (params : list jsval) (s : field) (index : nat) : M unit :=
  let type := type s in
  let param := nth_param params index in
  value <- lift (normalize type param) ;;
  write (name s) (stored s value).

Definition constructor_body (schema : schema_t) (params : list jsval)
  : M unit :=
  forEach schema (assign params).

Definition new_Verb (verb : string) (schema : option schema_t)
  (params : option (list jsval)) : result Verb :=
  let schema := from_option id [] schema in
  let params := from_option id [] params in
  match constructor_body schema params (MkVerb verb schema ∅) with
  | (Ok _, this) => Ok this
  | (Throw e, _) => Throw e
  end.

(** Lines 73-75: what a stored value becomes as an argument. *)
Definition resolve (catalog : jsval -> jsval) (type : kind) (value : jsval)
  : result jsval :=
  if kind_eqb type TableRef then getTable catalog value
  else if kind_eqb type TableRefList
       then Array_map value (fun t => getTable catalog t)
  else Ok value.

(** [evaluate(table, catalog)], lines 70-78.  The table is seen through
    its methods: [table m args] is [table[m](...args)]. *)
Definition evaluate (table : string -> list jsval -> result jsval)
  (catalog : jsval -> jsval) : M jsval :=
  schema <- read schema ;;
  params <- mapM (fun s =>
      value <- read (fun this => get_field this (name s)) ;;
      lift (resolve catalog (type s) value)) schema ;;
  verb <- read verb ;;
  lift (table verb params).

(** The loop of [toObject] and [toAST]: [obj[name] = f(s, this[name])]
    for each schema entry, on the local object [obj]. *)
Fixpoint fill (f : field -> jsval -> result jsval) (schema : schema_t)
  (obj : object) : M object :=
  match schema with
  | [] => ret obj
  | s :: schema' =>
      value <- read (fun this => get_field this (name s)) ;;
      v <- lift (f s value) ;;
      fill f schema' (obj_set obj (name s) v)
  end.

(** [toObject()], lines 85-91. *)
Definition toObject : M jsval :=
  verb <- read verb ;;
  schema <- read schema ;;
  obj <- fill (fun _ value => util_toObject value) schema
           [("verb", VStr verb)] ;;
  ret (VObj obj).

(** [toAST()], lines 101-107. *)
Definition toAST : M jsval :=
  verb <- read verb ;;
  schema <- read schema ;;
  obj <- fill (fun s value => ast_toAST value (type s) (props s)) schema
           [("verb", VStr verb)] ;;
  ret (VObj obj).

(** The constructor of a class of [createVerb], lines 113-115:
    [new Class(...params)] is [super(name, schema, params)]. *)
Definition new_class (c : verbclass) (params : list jsval) : result Verb :=
  new_Verb (c_name c) (c_schema c) (Some params).

(** [Verb.from(object)], lines 56-61.  Reading [.schema] of [undefined]
    throws; [new] of something that is not a constructor throws. *)
Definition Verb_from (object : object) : result instance :=
  let Type_ := Verbs_get (to_string (obj_get object "verb")) in
  match Type_ with
  | EUndefined => Throw TypeError
  | EClass c =>
      rbind (rmap (fun s => util_fromObject (obj_get object (name s)))
               (from_option id [] (c_schema c)))
        (fun params => rbind (new_class c params) (fun v => Ok (IVerb v)))
  | EObject => Ok (IObject [])
  | ENotConstructor => Throw TypeError
  end.

(** *** The three methods as functions of the instance *)

(** The arguments [evaluate] passes, as a function of the instance. *)
Definition resolved (catalog : jsval -> jsval) (this : Verb)
  : result (list jsval) :=
  rmap (fun s => resolve catalog (type s) (get_field this (name s)))
    (schema this).

(** The object [fill] builds, as a function of the instance. *)
Fixpoint filled (f : field -> jsval -> result jsval) (this : Verb)
  (schema : schema_t) (obj : object) : result object :=
  match schema with
  | [] => Ok obj
  | s :: schema' =>
      rbind (f s (get_field this (name s)))
        (fun v => filled f this schema' (obj_set obj (name s) v))
  end.

Definition serialized (f : field -> jsval -> result jsval) (this : Verb)
  : result jsval :=
  rbind (filled f this (schema this) [("verb", VStr (verb this))])
    (fun obj => Ok (VObj obj)).

Definition run_call (c : call) (this : Verb) : Verb :=
  match c with
  | CallEvaluate table catalog => snd (evaluate table catalog this)
  | CallToObject => snd (toObject this)
  | CallToAST => snd (toAST this)
  end.

Definition run_calls (cs : list call) (this : Verb) : Verb :=
  fold_left (fun this c => run_call c this) cs this.

(** *** What the methods compute *)

(** The traversal of [evaluate]: read a property, then call a helper. *)
Lemma mapM_read_lift {A} (g : Verb -> A -> jsval)
  (h : A -> jsval -> result jsval) (l : list A) (this : Verb) :
  mapM (fun s => value <- read (fun this => g this s) ;; lift (h s value))
    l this
  = (rmap (fun s => h s (g this s)) l, this).
Proof.
  induction l as [| s l IH]; simpl; [reflexivity |].
  unfold bind, read, lift in *; simpl.
  destruct (h s (g this s)) as [y | e]; simpl; [| reflexivity].
  rewrite IH. destruct (rmap _ l); reflexivity.
Qed.

Lemma evaluate_run table catalog this :
  evaluate table catalog this
  = (rbind (resolved catalog this) (table (verb this)), this).
Proof.
  unfold evaluate, resolved.
  unfold bind at 1. unfold read at 1. simpl.
  unfold bind at 1.
  rewrite (mapM_read_lift (fun this s => get_field this (name s))
             (fun s value => resolve catalog (type s) value)).
  destruct (rmap _ (schema this)) as [params | e]; reflexivity.
Qed.

Lemma fill_run f schema obj this :
  fill f schema obj this = (filled f this schema obj, this).
Proof.
  revert obj. induction schema as [| s schema IH]; intros obj; simpl.
  - reflexivity.
  - unfold bind at 1. unfold read at 1. simpl.
    unfold bind at 1. unfold lift at 1.
    destruct (f s (get_field this (name s))) as [v | e]; simpl.
    + apply IH.
    + reflexivity.
Qed.

Lemma toObject_run this :
  toObject this = (serialized (fun _ value => util_toObject value) this, this).
Proof.
  unfold toObject, serialized.
  unfold bind at 1. unfold read at 1. simpl.
  unfold bind at 1. unfold read at 1. simpl.
  unfold bind at 1. rewrite fill_run.
  destruct (filled _ this _ _); reflexivity.
Qed.

Lemma toAST_run this :
  toAST this
  = (serialized (fun s value => ast_toAST value (type s) (props s)) this,
     this).
Proof.
  unfold toAST, serialized.
  unfold bind at 1. unfold read at 1. simpl.
  unfold bind at 1. unfold read at 1. simpl.
  unfold bind at 1. rewrite fill_run.
  destruct (filled _ this _ _); reflexivity.
Qed.

Lemma run_call_id c this : run_call c this = this.
Proof.
  destruct c as [table catalog | |]; simpl.
  - rewrite evaluate_run. reflexivity.
  - rewrite toObject_run. reflexivity.
  - rewrite toAST_run. reflexivity.
Qed.

Lemma run_calls_id cs this : run_calls cs this = this.
Proof.
  unfold run_calls. induction cs as [| c cs IH]; simpl.
  - reflexivity.
  - rewrite run_call_id. exact IH.
Qed.

(** *** Construction *)

Lemma assign_ok params s index this v :
  normalize (type s) (nth_param params index) = Ok v ->
  assign params s index this = (Ok tt, set_field this (name s) (stored s v)).
Proof.
  intros Hv. unfold assign, bind, lift, write. rewrite Hv. reflexivity.
Qed.

Lemma assign_throw params s index this e :
  normalize (type s) (nth_param params index) = Throw e ->
  assign params s index this = (Throw e, this).
Proof.
  intros Hv. unfold assign, bind, lift, write. rewrite Hv. reflexivity.
Qed.

(** The loop of the constructor when every normalizer returns: the
    instance keeps [verb] and [schema], properties that no entry names are
    untouched, and the property an entry names holds what line 46 stores
    for the last entry of that name. *)
Lemma forEach_from_assign params (sch : schema_t) :
  forall (i : nat) (this : Verb),
    (forall (k : nat) (s : field), sch !! k = Some s ->
       exists v, normalize (type s) (nth_param params (i + k)) = Ok v) ->
    exists this',
      forEach_from i sch (assign params) this = (Ok tt, this')
      /\ verb this' = verb this
      /\ schema this' = schema this
      /\ (forall key, key ∉ map name sch ->
            fields this' !! key = fields this !! key)
      /\ (forall (k : nat) (s : field), sch !! k = Some s ->
            (forall (j : nat) (s' : field),
                (k < j)%nat -> sch !! j = Some s' -> name s' <> name s) ->
            exists v, normalize (type s) (nth_param params (i + k)) = Ok v
                      /\ fields this' !! name s = Some (stored s v)).
Proof.
  induction sch as [| s0 sch IH]; intros i this Hall.
  - exists this. repeat split; try reflexivity.
    intros k s Hk. destruct k; discriminate.
  - destruct (Hall 0%nat s0 eq_refl) as [v0 Hv0].
    rewrite Nat.add_0_r in Hv0.
    destruct (IH (S i) (set_field this (name s0) (stored s0 v0)))
      as (this' & Hrun & Hverb & Hschema & Hframe & Hlast).
    { intros k s Hk. destruct (Hall (S k) s Hk) as [v Hv].
      exists v. rewrite <- Hv. f_equal. f_equal. lia. }
    exists this'. simpl. unfold bind at 1.
    rewrite (assign_ok _ _ _ _ _ Hv0). simpl.
    split; [exact Hrun |]. split; [exact Hverb |]. split; [exact Hschema |].
    split.
    + intros key Hkey. simpl in Hkey.
      apply not_elem_of_cons in Hkey as [Hne Hkey].
      rewrite (Hframe key Hkey). simpl. apply lookup_insert_ne. congruence.
    + intros [| k] s Hk Hlater.
      * simpl in Hk. injection Hk as <-.
        exists v0. rewrite Nat.add_0_r. split; [exact Hv0 |].
        rewrite Hframe.
        -- simpl. apply lookup_insert_eq.
        -- intros Hin. apply list_elem_of_fmap in Hin as (s' & Hname & Hs').
           apply list_elem_of_lookup in Hs' as [j Hj].
           apply (Hlater (S j) s'); [lia | exact Hj | congruence].
      * simpl in Hk.
        destruct (Hlast k s Hk) as (v & Hv & Hget).
        { intros j s' Hlt Hj. apply (Hlater (S j) s'); [lia | exact Hj]. }
        exists v. split; [| exact Hget].
        rewrite <- Hv. f_equal. f_equal. lia.
Qed.

(** The first normalizer that throws ends the construction. *)
Lemma forEach_from_assign_throw params (sch : schema_t) :
  forall (i : nat) (this : Verb) (k : nat) (s : field) (e : error),
    sch !! k = Some s ->
    normalize (type s) (nth_param params (i + k)) = Throw e ->
    (forall (j : nat) (s' : field), (j < k)%nat -> sch !! j = Some s' ->
       exists v, normalize (type s') (nth_param params (i + j)) = Ok v) ->
    fst (forEach_from i sch (assign params) this) = Throw e.
Proof.
  induction sch as [| s0 sch IH]; intros i this k s e Hk He Hbefore.
  - destruct k; discriminate.
  - destruct k as [| k]; simpl in Hk.
    + injection Hk as <-. rewrite Nat.add_0_r in He.
      simpl. unfold bind at 1. rewrite (assign_throw _ _ _ _ _ He).
      reflexivity.
    + destruct (Hbefore 0%nat s0 (Nat.lt_0_succ k) eq_refl) as [v0 Hv0].
      rewrite Nat.add_0_r in Hv0.
      simpl. unfold bind at 1. rewrite (assign_ok _ _ _ _ _ Hv0). simpl.
      apply (IH (S i) _ k s e Hk).
      * rewrite <- He. f_equal. f_equal. lia.
      * intros j s' Hlt Hj.
        destruct (Hbefore (S j) s') as [v Hv]; [lia | exact Hj |].
        exists v. rewrite <- Hv. f_equal. f_equal. lia.
Qed.

(** *** Serializing and rebuilding *)

Lemma obj_get_set_eq (o : object) k v : obj_get (obj_set o k v) k = v.
Proof.
  induction o as [| [k' v'] o IH]; simpl.
  - rewrite String.eqb_refl. reflexivity.
  - destruct (String.eqb k' k) eqn:Hk; simpl; rewrite Hk;
      [reflexivity | exact IH].
Qed.

Lemma obj_get_set_ne (o : object) k v k' :
  k <> k' -> obj_get (obj_set o k v) k' = obj_get o k'.
Proof.
  intros Hne. induction o as [| [k0 v0] o IH]; simpl.
  - apply String.eqb_neq in Hne. rewrite Hne. reflexivity.
  - destruct (String.eqb k0 k) eqn:Hk; simpl.
    + apply String.eqb_eq in Hk. subst k0.
      apply String.eqb_neq in Hne. rewrite Hne. reflexivity.
    + destruct (String.eqb k0 k'); [reflexivity | exact IH].
Qed.

Lemma filled_get f this (sch : schema_t) :
  forall obj o',
    filled f this sch obj = Ok o' ->
    NoDup (map name sch) ->
    (forall key, key ∉ map name sch -> obj_get o' key = obj_get obj key)
    /\ (forall s, s ∈ sch ->
          f s (get_field this (name s)) = Ok (obj_get o' (name s))).
Proof.
  induction sch as [| s0 sch IH]; intros obj o' Hrun Hnodup; simpl in *.
  - injection Hrun as <-. split; [reflexivity |].
    intros s Hs. inversion Hs.
  - apply NoDup_cons in Hnodup as [Hfresh Hnodup].
    destruct (f s0 (get_field this (name s0))) as [y0 | e] eqn:Hy0;
      [| discriminate].
    simpl in Hrun. destruct (IH _ _ Hrun Hnodup) as [Hframe Hget].
    split.
    + intros key Hkey. apply not_elem_of_cons in Hkey as [Hne Hkey].
      rewrite (Hframe key Hkey). apply obj_get_set_ne. congruence.
    + intros s Hs. apply elem_of_cons in Hs as [-> | Hs].
      * rewrite (Hframe (name s0) Hfresh), obj_get_set_eq. exact Hy0.
      * apply Hget. exact Hs.
Qed.

Lemma filled_ok f this (sch : schema_t) :
  (forall s, s ∈ sch -> exists y, f s (get_field this (name s)) = Ok y) ->
  forall obj, exists o, filled f this sch obj = Ok o.
Proof.
  induction sch as [| s0 sch IH]; intros Hall obj; simpl.
  - eauto.
  - destruct (Hall s0) as [y Hy]; [left |]. rewrite Hy. simpl.
    apply IH. intros s Hs. apply Hall. right. exact Hs.
Qed.

Lemma rmap_Forall2 {A B} (g : A -> result B) (P : A -> B -> Prop)
  (l : list A) :
  (forall x, x ∈ l -> exists y, g x = Ok y /\ P x y) ->
  exists ys, rmap g l = Ok ys /\ Forall2 P l ys.
Proof.
  induction l as [| x l IH]; intros H; simpl.
  - exists []. split; [reflexivity | constructor].
  - destruct (H x) as (y & Hy & HP); [left |].
    destruct IH as (ys & Hys & HF).
    { intros x' Hx'. apply H. right. exact Hx'. }
    exists (y :: ys). rewrite Hy. simpl. rewrite Hys. simpl.
    split; [reflexivity | constructor; assumption].
Qed.

(** The class by itself round-trips: when, for every field, the helpers
    serialize, deserialize and normalize the stored value back to itself,
    [Verb.from] rebuilds from [toObject] the very same verb. *)
Lemma from_toObject (c : verbclass) (params : list jsval) (this : Verb) :
  own_class Verbs (c_name c) = Some c ->
  NoDup (map name (from_option id [] (c_schema c))) ->
  "verb" ∉ map name (from_option id [] (c_schema c)) ->
  new_class c params = Ok this ->
  (forall s, s ∈ from_option id [] (c_schema c) ->
     exists y z w,
       util_toObject (get_field this (name s)) = Ok y
       /\ util_fromObject y = Ok z
       /\ normalize (type s) z = Ok w
       /\ stored s w = get_field this (name s)) ->
  exists o,
    toObject this = (Ok (VObj o), this)
    /\ Verb_from o = Ok (IVerb this).
Proof.
  intros Hreg Hnodup Hverb Hnew Hlaw.
  remember (from_option id [] (c_schema c)) as sch eqn:Hsch.
  (* the original construction *)
  unfold new_class, new_Verb, constructor_body, forEach in Hnew.
  simpl in Hnew. rewrite <- Hsch in Hnew.
  destruct (forEach_from 0 sch (assign params) (MkVerb (c_name c) sch ∅))
    as [[[] | e] this0] eqn:Hrun0; [| discriminate].
  injection Hnew as ->.
  assert (Hframe0 : verb this = c_name c /\ schema this = sch
                    /\ (forall key, key ∉ map name sch ->
                                    fields this !! key = None)
                    /\ (forall s, s ∈ sch ->
                          is_Some (fields this !! name s))).
  { assert (Hgen : forall (l : schema_t) i st st',
               forEach_from i l (assign params) st = (Ok tt, st') ->
               verb st' = verb st /\ schema st' = schema st
               /\ (forall key, key ∉ map name l ->
                               fields st' !! key = fields st !! key)
               /\ (forall s, s ∈ l -> is_Some (fields st' !! name s))).
    { induction l as [| s0 l IH]; intros i st st' Hst; simpl in Hst.
      - injection Hst as <-. repeat split. intros s Hs. inversion Hs.
      - unfold bind at 1 in Hst. unfold assign, bind, lift, write in Hst.
        destruct (normalize (type s0) (nth_param params i)) as [v |];
          [| discriminate].
        destruct (IH _ _ _ Hst) as (Hv & Hs & Hf & Hsome). simpl in *.
        repeat split; try assumption.
        + intros key Hkey. apply not_elem_of_cons in Hkey as [Hne Hkey].
          rewrite (Hf key Hkey). apply lookup_insert_ne. congruence.
        + intros s Hin. apply elem_of_cons in Hin as [-> | Hin];
            [| apply Hsome; exact Hin].
          destruct (decide (name s0 ∈ map name l)) as [Hdup | Hfresh].
          * apply list_elem_of_fmap in Hdup as (s' & Hname & Hs').
            rewrite Hname. apply Hsome. exact Hs'.
          * rewrite (Hf _ Hfresh). rewrite lookup_insert_eq. eauto. }
    destruct (Hgen _ _ _ _ Hrun0) as (Hv & Hs & Hf & Hsome).
    simpl in *. repeat split; assumption. }
  destruct Hframe0 as (Hv0 & Hs0 & Hnone & Hsome).
  (* the serialized object *)
  rewrite toObject_run. unfold serialized. rewrite Hs0, Hv0.
  destruct (filled_ok (fun _ value => util_toObject value) this sch)
    with (obj := [("verb", VStr (c_name c))]) as [o Hfill].
  { intros s Hs. destruct (Hlaw s Hs) as (y & _ & _ & Hy & _). eauto. }
  rewrite Hfill. simpl.
  exists o. split; [reflexivity |].
  destruct (filled_get _ _ _ _ _ Hfill Hnodup) as [Hoframe Hoget].
  (* the lookup in the registry *)
  unfold Verb_from, Verbs_get.
  assert (Hkey : obj_get o "verb" = VStr (c_name c))
    by (rewrite (Hoframe "verb" Hverb); reflexivity).
  rewrite Hkey. change (to_string (VStr (c_name c))) with (c_name c).
  rewrite Hreg. rewrite <- Hsch.
  (* the deserialized parameters *)
  destruct (rmap_Forall2 (fun s => util_fromObject (obj_get o (name s)))
              (fun s z => exists w, normalize (type s) z = Ok w
                                    /\ stored s w = get_field this (name s))
              sch) as (zs & Hzs & HF).
  { intros s Hs. destruct (Hlaw s Hs) as (y & z & w & Hy & Hz & Hw & Hst).
    exists z. split; [| eauto].
    specialize (Hoget s Hs). simpl in Hoget.
    rewrite Hy in Hoget. injection Hoget as <-. exact Hz. }
  rewrite Hzs. simpl.
  (* the second construction *)
  unfold new_class, new_Verb, constructor_body, forEach. simpl.
  rewrite <- Hsch.
  destruct (forEach_from_assign zs sch 0%nat (MkVerb (c_name c) sch ∅))
    as (this' & Hrun & Hv' & Hs' & Hframe' & Hlast').
  { intros k s Hk. simpl.
    destruct (Forall2_lookup_l _ _ _ _ _ HF Hk) as (z & Hz & w & Hw & _).
    exists w. unfold nth_param. rewrite Hz. exact Hw. }
  rewrite Hrun. simpl. do 2 f_equal. clear Hreg Hkey Hsch.
  destruct this as [tv ts tf], this' as [tv' ts' tf'].
  cbn [verb schema fields] in *.
  subst. f_equal. apply map_eq. intros key.
  destruct (decide (key ∈ map name sch)) as [Hin | Hout].
  - apply list_elem_of_fmap in Hin as (s & -> & Hs).
    apply list_elem_of_lookup in Hs as [k Hk].
    destruct (Hlast' k s Hk) as (w & Hw & Hget).
    { intros j s' Hlt Hj Heq.
      apply (NoDup_lookup _ k j (name s)) in Hnodup; [lia | |].
      - rewrite list_lookup_fmap, Hk. reflexivity.
      - rewrite list_lookup_fmap, Hj. simpl. congruence. }
    rewrite Hget.
    destruct (Forall2_lookup_l _ _ _ _ _ HF Hk) as (z & Hz & w' & Hw' & Hst).
    change (0 + k)%nat with k in Hw.
    unfold nth_param in Hw. rewrite Hz in Hw. simpl in Hw.
    rewrite Hw' in Hw. injection Hw as <-.
    rewrite Hst. unfold get_field. simpl.
    destruct (Hsome s) as [x Hx].
    { apply list_elem_of_lookup. eauto. }
    simpl in Hx. rewrite Hx. reflexivity.
  - rewrite (Hframe' key Hout). simpl. rewrite lookup_empty.
    symmetry. apply Hnone. exact Hout.
Qed.

Lemma forEach_from_assign_inv params (sch : schema_t) :
  forall (i : nat) (st st' : Verb),
    forEach_from i sch (assign params) st = (Ok tt, st') ->
    forall (k : nat) (s : field), sch !! k = Some s ->
      exists v, normalize (type s) (nth_param params (i + k)) = Ok v.
Proof.
  induction sch as [| s0 sch IH]; intros i st st' Hrun k s Hk.
  - destruct k; discriminate.
  - simpl in Hrun. unfold bind at 1 in Hrun.
    destruct (normalize (type s0) (nth_param params i)) as [v0 | e] eqn:Hv0.
    + rewrite (assign_ok _ _ _ _ _ Hv0) in Hrun.
      destruct k as [| k]; simpl in Hk.
      * injection Hk as <-. rewrite Nat.add_0_r. eauto.
      * destruct (IH _ _ _ Hrun k s Hk) as [v Hv].
        exists v. rewrite <- Hv. f_equal. f_equal. lia.
    + rewrite (assign_throw _ _ _ _ _ Hv0) in Hrun. discriminate.
Qed.

Lemma own_class_In (table : list (string * verbclass)) key c :
  own_class table key = Some c -> (key, c) ∈ table.
Proof.
  induction table as [| [k c'] table IH]; simpl; [discriminate |].
  destruct (String.eqb k key) eqn:Hk.
  - apply String.eqb_eq in Hk. intros [= <-]. subst. left.
  - intros H. right. apply IH. exact H.
Qed.

Lemma registry_well_formed :
  Forall (fun kc => well_formed (snd kc)) Verbs.
Proof.
  unfold Verbs.
  repeat (apply Forall_cons_2;
          [ split; [reflexivity |];
            split; [apply (bool_decide_unpack _); vm_compute; reflexivity |];
            split; [apply (bool_decide_unpack _); vm_compute; reflexivity |];
            simpl; repeat (apply Forall_cons_2; [auto |]); apply Forall_nil_2
          | ]).
  apply Forall_nil_2.
Qed.

(** The round trip of a registered verb follows from two laws of the
    helpers: [fromObject] undoes [toObject], and a normalizer returns what
    it is given when that is already normalized. *)
Lemma round_trip_under_helper_laws (key : string) (c : verbclass)
  (params : list jsval) (this : Verb) :
  own_class Verbs key = Some c ->
  (forall x, exists y, util_toObject x = Ok y /\ util_fromObject y = Ok x) ->
  (forall type param v,
      normalize type param = Ok v -> normalize type v = Ok v) ->
  new_class c params = Ok this ->
  exists o,
    toObject this = (Ok (VObj o), this)
    /\ Verb_from o = Ok (IVerb this).
Proof.
  intros Hown Hinverse Hcanonical Hnew.
  pose proof registry_well_formed as Hwf.
  rewrite Forall_forall in Hwf.
  destruct (Hwf (key, c) (own_class_In _ _ _ Hown))
    as (Hreg & Hnodup & Hverb & Hdefault).
  cbn [snd] in Hreg, Hnodup, Hverb, Hdefault.
  apply (from_toObject c params this Hreg Hnodup Hverb Hnew).
  remember (from_option id [] (c_schema c)) as sch eqn:Hsch.
  intros s Hs.
  (* what the constructor stored for [s] *)
  assert (Hstored : exists p v, normalize (type s) p = Ok v
                                /\ get_field this (name s) = stored s v).
  { unfold new_class, new_Verb, constructor_body, forEach in Hnew.
    simpl in Hnew. rewrite <- Hsch in Hnew.
    destruct (forEach_from 0 sch (assign params) (MkVerb (c_name c) sch ∅))
      as [[[] | e] this0] eqn:Hrun; [| discriminate].
    injection Hnew as ->.
    destruct (forEach_from_assign params sch 0%nat (MkVerb (c_name c) sch ∅)
                (forEach_from_assign_inv _ _ _ _ _ Hrun))
      as (this' & Hrun' & _ & _ & _ & Hlast).
    rewrite Hrun in Hrun'. injection Hrun' as <-.
    apply list_elem_of_lookup in Hs as [k Hk].
    destruct (Hlast k s Hk) as (v & Hv & Hget).
    { intros j s' Hlt Hj Heq.
      apply (NoDup_lookup _ k j (name s)) in Hnodup; [lia | |].
      - rewrite list_lookup_fmap, Hk. reflexivity.
      - rewrite list_lookup_fmap, Hj. simpl. congruence. }
    exists (nth_param params (0 + k)), v. split; [exact Hv |].
    unfold get_field. rewrite Hget. reflexivity. }
  destruct Hstored as (p & v & Hv & Hget).
  rewrite Hget.
  destruct (Hinverse (stored s v)) as (y & Hy & Hz).
  assert (Hfix : exists w, normalize (type s) (stored s v) = Ok w
                           /\ stored s w = stored s v).
  { unfold stored. destruct (is_undefined v) eqn:Hundef.
    - (* the default was stored *)
      destruct v; try discriminate.
      rewrite Forall_forall in Hdefault.
      destruct (Hdefault s Hs) as [Hnone | Hpass].
      + exists VUndef. rewrite Hnone. split; [| reflexivity].
        apply (Hcanonical _ _ _ Hv).
      + exists (default s). split; [| destruct (default s); reflexivity].
        unfold normalize. unfold passes_through in Hpass.
        destruct (kind_eqb (type s) JoinKeys); [discriminate |].
        destruct (kind_eqb (type s) JoinValues); [discriminate |].
        destruct (kind_eqb (type s) OrderbyKeys); [discriminate |].
        reflexivity.
    - exists v. rewrite Hundef. split; [| reflexivity].
      apply (Hcanonical _ _ _ Hv). }
  destruct Hfix as (w & Hw & Hst).
  exists y, (stored s v), w. repeat split; assumption.
Qed.

(** *** Properties of the class *)

(** C3 (as amended).  For a schema whose entries have ordinary names (none
    is [verb], [schema] or [__proto__]), construction keeps the verb name
    and the schema and walks the schema in order: the entry at index [k]
    takes [params[k]] ([undefined] past the end), kinds join-keys,
    join-values and orderby-keys go through their normalizer and every
    other kind is passed as it is, and the property holds the normalized
    value unless that value is [undefined], in which case it holds the
    schema default ([null] is kept as [null]). *)
Theorem new_Verb_stores (verb0 : string) (sch : schema_t)
  (params : list jsval) :
  (forall param, normalize JoinKeys param = joinKeys param
                 /\ normalize JoinValues param = joinValues param
                 /\ normalize OrderbyKeys param = orderbyKeys param)
  /\ (forall type param,
        type <> JoinKeys -> type <> JoinValues -> type <> OrderbyKeys ->
        normalize type param = Ok param)
  /\ (forall s, stored s VUndef = default s)
  /\ (forall s value, value <> VUndef -> stored s value = value)
  /\ (ordinary sch = true ->
      (forall (k : nat) (s : field), sch !! k = Some s ->
         exists v, normalize (type s) (nth_param params k) = Ok v) ->
      exists this,
        new_Verb verb0 (Some sch) (Some params) = Ok this
        /\ verb this = verb0
        /\ schema this = sch
        /\ forall (k : nat) (s : field), sch !! k = Some s ->
             (forall (j : nat) (s' : field),
                 (k < j)%nat -> sch !! j = Some s' -> name s' <> name s) ->
             exists v, normalize (type s) (nth_param params k) = Ok v
                       /\ get_field this (name s) = stored s v).
Proof.
  split; [intros param; repeat split |].
  split; [intros [] param H1 H2 H3; try reflexivity; congruence |].
  split; [reflexivity |].
  split; [intros s [] H; try reflexivity; congruence |].
  intros _ Hall.
  destruct (forEach_from_assign params sch 0%nat (MkVerb verb0 sch ∅) Hall)
    as (this & Hrun & Hverb & Hschema & _ & Hlast).
  exists this. unfold new_Verb, constructor_body, forEach. simpl.
  rewrite Hrun. repeat split; try assumption.
  intros k s Hk Hlater.
  destruct (Hlast k s Hk Hlater) as (v & Hv & Hget).
  exists v. split; [exact Hv |]. unfold get_field. rewrite Hget. reflexivity.
Qed.

(** C7.  Whatever sequence of [evaluate], [toObject] and [toAST] calls is
    made on an instance, whether they return or throw, the instance has
    the same verb name, the same schema and the same value in every
    property its schema names. *)
Theorem Verb_immutable (cs : list call) (this : Verb) :
  verb (run_calls cs this) = verb this
  /\ schema (run_calls cs this) = schema this
  /\ forall s, s ∈ schema this ->
       get_field (run_calls cs this) (name s) = get_field this (name s).
Proof.
  rewrite run_calls_id. repeat split.
Qed.

(** C9.  [new Dedupe()] returns a verb named dedupe whose [keys] is the
    empty array of the schema default. *)
Theorem Dedupe_no_arguments :
  exists this,
    new_class Dedupe [] = Ok this
    /\ verb this = "dedupe"
    /\ get_field this "keys" = VArr [].
Proof.
  eexists. split; [reflexivity |]. split; reflexivity.
Qed.

(** C4 (as amended).  When the verb discriminator names neither a
    registered class nor [constructor], [Verb.from] throws the
    [TypeError] of the runtime. *)
Theorem Verb_from_unregistered (object : object) :
  own_class Verbs (to_string (obj_get object "verb")) = None ->
  to_string (obj_get object "verb") <> "constructor" ->
  Verb_from object = Throw TypeError.
Proof.
  intros Hown Hctor. unfold Verb_from, Verbs_get. rewrite Hown.
  apply String.eqb_neq in Hctor. rewrite Hctor.
  destruct (existsb _ prototype_names); reflexivity.
Qed.

(** *** Further properties of construction *)

Lemma ordinary_not_verb (sch : schema_t) :
  ordinary sch = true -> "verb" ∉ map name sch.
Proof.
  unfold ordinary. rewrite forallb_forall. intros Hord Hin.
  apply list_elem_of_fmap in Hin as (s & Hname & Hs).
  apply list_elem_of_In in Hs. specialize (Hord s Hs).
  unfold reserved in Hord. rewrite <- Hname in Hord. discriminate.
Qed.

Lemma forEach_from_assign_dom params (sch : schema_t) :
  forall (i : nat) (st st' : Verb),
    forEach_from i sch (assign params) st = (Ok tt, st') ->
    dom (fields st') = dom (fields st) ∪ list_to_set (map name sch).
Proof.
  induction sch as [| s0 sch IH]; intros i st st' Hrun; simpl in Hrun.
  - injection Hrun as <-. simpl. rewrite (right_id_L ∅ (∪)). reflexivity.
  - unfold bind at 1 in Hrun.
    destruct (normalize (type s0) (nth_param params i)) as [v0 | e] eqn:Hv0.
    + rewrite (assign_ok _ _ _ _ _ Hv0) in Hrun.
      rewrite (IH _ _ _ Hrun). simpl. rewrite dom_insert_L.
      rewrite (comm_L (∪) {[name s0]}), (assoc_L (∪)). reflexivity.
    + rewrite (assign_throw _ _ _ _ _ Hv0) in Hrun. discriminate.
Qed.

Lemma forEach_from_assign_agree params params' (sch : schema_t) :
  forall (i : nat) (st : Verb),
    (forall k : nat, (k < length sch)%nat ->
       nth_param params (i + k) = nth_param params' (i + k)) ->
    forEach_from i sch (assign params) st
    = forEach_from i sch (assign params') st.
Proof.
  induction sch as [| s0 sch IH]; intros i st Hagree; simpl; [reflexivity |].
  pose proof (Hagree 0%nat ltac:(simpl; lia)) as H0.
  rewrite Nat.add_0_r in H0. unfold bind.
  destruct (normalize (type s0) (nth_param params' i)) as [v0 | e] eqn:Hv0.
  2:{ rewrite (assign_throw params' _ _ _ _ Hv0).
      rewrite <- H0 in Hv0. rewrite (assign_throw params _ _ _ _ Hv0).
      reflexivity. }
  rewrite (assign_ok params' _ _ _ _ Hv0).
  rewrite <- H0 in Hv0. rewrite (assign_ok params _ _ _ _ Hv0).
  apply IH. intros k Hk.
  replace (S i + k)%nat with (i + S k)%nat by lia.
  apply Hagree. simpl. lia.
Qed.

(** X1.  The constructor throws what the first normalizer that throws
    throws: the entries before it were normalized, and the verb is not
    built. *)
Theorem new_Verb_first_throw (verb0 : string) (sch : schema_t)
  (params : list jsval) (k : nat) (s : field) (e : error) :
  sch !! k = Some s ->
  normalize (type s) (nth_param params k) = Throw e ->
  (forall (j : nat) (s' : field), (j < k)%nat -> sch !! j = Some s' ->
     exists v, normalize (type s') (nth_param params j) = Ok v) ->
  new_Verb verb0 (Some sch) (Some params) = Throw e.
Proof.
  intros Hk He Hbefore.
  pose proof (forEach_from_assign_throw params sch 0%nat
                (MkVerb verb0 sch ∅) k s e Hk He Hbefore) as Hrun.
  unfold new_Verb, constructor_body, forEach. simpl.
  destruct (forEach_from 0 sch (assign params) (MkVerb verb0 sch ∅))
    as [[[] | e'] st]; simpl in Hrun; [discriminate |].
  injection Hrun as ->. reflexivity.
Qed.

(** X2.  A verb constructed from a schema of ordinary names has one field
    property for each name of its schema, whether or not a parameter was
    given for it, and no other. *)
Theorem new_Verb_field_names (verb0 : string) (sch : schema_t)
  (params : list jsval) (this : Verb) :
  ordinary sch = true ->
  new_Verb verb0 (Some sch) (Some params) = Ok this ->
  dom (fields this) = list_to_set (map name sch).
Proof.
  intros _. unfold new_Verb, constructor_body, forEach. simpl.
  destruct (forEach_from 0 sch (assign params) (MkVerb verb0 sch ∅))
    as [[[] | e] st] eqn:Hrun; [| discriminate].
  intros [= <-]. rewrite (forEach_from_assign_dom _ _ _ _ _ Hrun).
  simpl. rewrite dom_empty_L, (left_id_L ∅ (∪)). reflexivity.
Qed.

(** X3.  Construction looks at one parameter per schema entry: parameters
    past the end of the schema are ignored, and a parameter that is not
    given counts as [undefined]. *)
Theorem new_Verb_positional (verb0 : string) (sch : schema_t)
  (params extra : list jsval) (n : nat) :
  ((length sch <= length params)%nat ->
   new_Verb verb0 (Some sch) (Some (params ++ extra)%list)
   = new_Verb verb0 (Some sch) (Some params))
  /\ new_Verb verb0 (Some sch) (Some (params ++ replicate n VUndef)%list)
     = new_Verb verb0 (Some sch) (Some params).
Proof.
  split; [intros Hlen |]; unfold new_Verb, constructor_body, forEach; simpl.
  - rewrite (forEach_from_assign_agree (params ++ extra)%list params);
      [reflexivity |].
    intros k Hk. simpl. unfold nth_param.
    rewrite lookup_app_l by lia. reflexivity.
  - rewrite (forEach_from_assign_agree (params ++ replicate n VUndef)%list
               params);
      [reflexivity |].
    intros k _. simpl. unfold nth_param.
    destruct (decide (k < length params)%nat) as [Hlt | Hge].
    + rewrite lookup_app_l by lia. reflexivity.
    + rewrite lookup_app_r by lia.
      rewrite (lookup_ge_None_2 params k) by lia.
      destruct (replicate n VUndef !! (k - length params)%nat) as [x |] eqn:Hx;
        [| reflexivity].
      apply lookup_replicate in Hx as [-> _]. reflexivity.
Qed.

(** *** Further properties of the serializers *)

Lemma kept_in_order_ordinary (sch : schema_t) :
  kept_in_order sch = true -> ordinary sch = true.
Proof.
  unfold kept_in_order, ordinary. rewrite !forallb_forall.
  intros Hkept s Hs. specialize (Hkept s Hs).
  apply andb_true_iff in Hkept as [Hres _]. exact Hres.
Qed.

Lemma obj_set_fresh (o : object) (k : string) (v : jsval) :
  k ∉ map fst o -> obj_set o k v = (o ++ [(k, v)])%list.
Proof.
  induction o as [| [k' v'] o IH]; simpl; intros Hk; [reflexivity |].
  apply not_elem_of_cons in Hk as [Hne Hk].
  assert (Hneq : String.eqb k' k = false) by (apply String.eqb_neq; congruence).
  rewrite Hneq, (IH Hk). reflexivity.
Qed.

Lemma filled_entries f this (sch : schema_t) :
  forall (obj : object) (ys : list jsval),
    NoDup (map name sch) ->
    (forall s, s ∈ sch -> name s ∉ map fst obj) ->
    rmap (fun s => f s (get_field this (name s))) sch = Ok ys ->
    filled f this sch obj = Ok (obj ++ zip (map name sch) ys)%list.
Proof.
  induction sch as [| s0 sch IH]; intros obj ys Hnodup Hfresh Hys;
    simpl in *.
  - injection Hys as <-. rewrite app_nil_r. reflexivity.
  - apply NoDup_cons in Hnodup as [Hs0 Hnodup].
    destruct (f s0 (get_field this (name s0))) as [y0 | e]; [| discriminate].
    simpl in *.
    destruct (rmap (fun s => f s (get_field this (name s))) sch)
      as [ys' | e] eqn:Hys'; [| discriminate].
    simpl in Hys. injection Hys as <-.
    rewrite (obj_set_fresh obj (name s0) y0) by (apply Hfresh; left).
    rewrite (IH _ ys' Hnodup); [| | reflexivity].
    + rewrite <- app_assoc. reflexivity.
    + intros s Hs. rewrite map_app. simpl. intros Hin.
      apply elem_of_app in Hin as [Hin | Hin].
      * apply (Hfresh s); [right; exact Hs | exact Hin].
      * apply list_elem_of_singleton in Hin. apply Hs0. rewrite <- Hin.
        apply list_elem_of_fmap. exists s. split; [reflexivity | exact Hs].
Qed.

Lemma filled_first_throw f this (pre : schema_t) (s : field)
  (post : schema_t) (e : error) :
  forall obj : object,
    (forall s', s' ∈ pre ->
       exists y, f s' (get_field this (name s')) = Ok y) ->
    f s (get_field this (name s)) = Throw e ->
    filled f this (pre ++ s :: post) obj = Throw e.
Proof.
  induction pre as [| s0 pre IH]; intros obj Hpre Hs; simpl.
  - rewrite Hs. reflexivity.
  - destruct (Hpre s0) as [y0 Hy0]; [left |]. rewrite Hy0. simpl.
    apply IH; [| exact Hs]. intros s' Hs'. apply Hpre. right. exact Hs'.
Qed.

Lemma rmap_first_throw {A B} (g : A -> result B) (pre : list A) (x : A)
  (post : list A) (e : error) :
  (forall x', x' ∈ pre -> exists y, g x' = Ok y) ->
  g x = Throw e ->
  rmap g (pre ++ x :: post) = Throw e.
Proof.
  induction pre as [| x0 pre IH]; intros Hpre Hx; simpl.
  - rewrite Hx. reflexivity.
  - destruct (Hpre x0) as [y0 Hy0]; [left |]. rewrite Hy0. simpl.
    rewrite IH; [reflexivity | | exact Hx].
    intros x' Hx'. apply Hpre. right. exact Hx'.
Qed.

Lemma rmap_length {A B} (g : A -> result B) (l : list A) (ys : list B) :
  rmap g l = Ok ys -> length ys = length l.
Proof.
  revert ys. induction l as [| x l IH]; intros ys Hys; simpl in Hys.
  - injection Hys as <-. reflexivity.
  - destruct (g x) as [y | e]; [| discriminate]. simpl in Hys.
    destruct (rmap g l) as [ys' | e]; [| discriminate].
    injection Hys as <-. simpl. rewrite (IH ys' eq_refl). reflexivity.
Qed.

(** X4.  For a schema of distinct ordinary names, none of them an integer
    index, when the helper returns for every field, [toObject] returns the
    object whose properties are [verb], holding the verb name, and then one
    property per schema entry, in schema order, holding what the helper
    returned for the value of that field. *)
Theorem toObject_entries (this : Verb) (ys : list jsval) :
  NoDup (map name (schema this)) ->
  kept_in_order (schema this) = true ->
  rmap (fun s => util_toObject (get_field this (name s))) (schema this)
  = Ok ys ->
  toObject this
  = (Ok (VObj (("verb", VStr (verb this)) :: zip (map name (schema this)) ys)),
     this).
Proof.
  intros Hnodup Hord Hys.
  pose proof (ordinary_not_verb _ (kept_in_order_ordinary _ Hord))
    as Hverb.
  rewrite toObject_run. unfold serialized.
  rewrite (filled_entries _ _ _ _ ys Hnodup); [reflexivity | | exact Hys].
  intros s Hs Hin. simpl in Hin. apply list_elem_of_singleton in Hin.
  apply Hverb. rewrite <- Hin. apply list_elem_of_fmap. eauto.
Qed.

(** X5.  [toAST] hands each field to the helper together with the type
    and the props of its schema entry; for a schema of distinct ordinary
    names, none of them an integer index, when the helper returns for every
    field, the result has the property [verb] and then one property per
    schema entry, in schema order. *)
Theorem toAST_entries (this : Verb) (ys : list jsval) :
  NoDup (map name (schema this)) ->
  kept_in_order (schema this) = true ->
  rmap (fun s => ast_toAST (get_field this (name s)) (type s) (props s))
    (schema this) = Ok ys ->
  toAST this
  = (Ok (VObj (("verb", VStr (verb this)) :: zip (map name (schema this)) ys)),
     this).
Proof.
  intros Hnodup Hord Hys.
  pose proof (ordinary_not_verb _ (kept_in_order_ordinary _ Hord))
    as Hverb.
  rewrite toAST_run. unfold serialized.
  rewrite (filled_entries _ _ _ _ ys Hnodup); [reflexivity | | exact Hys].
  intros s Hs Hin. simpl in Hin. apply list_elem_of_singleton in Hin.
  apply Hverb. rewrite <- Hin. apply list_elem_of_fmap. eauto.
Qed.

(** X6.  [toObject] throws what the helper throws on the first field it
    fails on, and returns no object. *)
Theorem toObject_first_throw (this : Verb) (pre : schema_t) (s : field)
  (post : schema_t) (e : error) :
  schema this = (pre ++ s :: post)%list ->
  (forall s', s' ∈ pre ->
     exists y, util_toObject (get_field this (name s')) = Ok y) ->
  util_toObject (get_field this (name s)) = Throw e ->
  toObject this = (Throw e, this).
Proof.
  intros Hsch Hpre Hs. rewrite toObject_run. unfold serialized.
  rewrite Hsch.
  rewrite (filled_first_throw (fun _ value => util_toObject value)
             this pre s post e _ Hpre Hs).
  reflexivity.
Qed.

(** X7.  [toAST] throws what the helper throws on the first field it fails
    on, and returns no tree. *)
Theorem toAST_first_throw (this : Verb) (pre : schema_t) (s : field)
  (post : schema_t) (e : error) :
  schema this = (pre ++ s :: post)%list ->
  (forall s', s' ∈ pre ->
     exists y, ast_toAST (get_field this (name s')) (type s') (props s')
               = Ok y) ->
  ast_toAST (get_field this (name s)) (type s) (props s) = Throw e ->
  toAST this = (Throw e, this).
Proof.
  intros Hsch Hpre Hs. rewrite toAST_run. unfold serialized.
  rewrite Hsch.
  rewrite (filled_first_throw
             (fun s value => ast_toAST value (type s) (props s))
             this pre s post e _ Hpre Hs).
  reflexivity.
Qed.

(** *** Further properties of evaluation *)

(** X8.  When resolving a field fails, [evaluate] throws that error and
    the table method is not called: the result is the same for every
    table. *)
Theorem evaluate_first_throw (catalog : jsval -> jsval) (this : Verb)
  (pre : schema_t) (s : field) (post : schema_t) (e : error) :
  schema this = (pre ++ s :: post)%list ->
  (forall s', s' ∈ pre ->
     exists y, resolve catalog (type s') (get_field this (name s')) = Ok y) ->
  resolve catalog (type s) (get_field this (name s)) = Throw e ->
  forall table, evaluate table catalog this = (Throw e, this).
Proof.
  intros Hsch Hpre Hs table. rewrite evaluate_run. unfold resolved.
  rewrite Hsch.
  rewrite (rmap_first_throw
             (fun s => resolve catalog (type s) (get_field this (name s)))
             pre s post e Hpre Hs).
  reflexivity.
Qed.

(** X9.  [evaluate] calls the table method named by the verb at most once,
    with exactly one argument per schema entry, and what it passes does
    not depend on the table; when it throws before the call, the error
    does not depend on the table either. *)
Theorem evaluate_one_call (catalog : jsval -> jsval) (this : Verb) :
  (exists args : list jsval,
      length args = length (schema this)
      /\ forall table,
           evaluate table catalog this = (table (verb this) args, this))
  \/ (exists e : error,
         forall table, evaluate table catalog this = (Throw e, this)).
Proof.
  destruct (resolved catalog this) as [args | e] eqn:Hargs.
  - left. exists args. split.
    + apply (rmap_length _ _ _ Hargs).
    + intros table. rewrite evaluate_run, Hargs. reflexivity.
  - right. exists e. intros table. rewrite evaluate_run, Hargs. reflexivity.
Qed.

(** X10.  A verb whose schema has no table reference is evaluated without
    the catalog: the table method receives the stored values as they are,
    in schema order. *)
Theorem evaluate_without_table_refs
  (table : string -> list jsval -> result jsval) (catalog : jsval -> jsval)
  (this : Verb) :
  forallb (fun s => negb (table_kind (type s))) (schema this) = true ->
  evaluate table catalog this
  = (table (verb this) (map (fun s => get_field this (name s)) (schema this)),
     this).
Proof.
  intros Hplain. rewrite evaluate_run. unfold resolved.
  assert (Hargs : rmap (fun s => resolve catalog (type s)
                                   (get_field this (name s))) (schema this)
                  = Ok (map (fun s => get_field this (name s)) (schema this))).
  { induction (schema this) as [| s sch IH]; simpl in *; [reflexivity |].
    apply andb_true_iff in Hplain as [Hs Hplain].
    unfold resolve at 1. unfold table_kind in Hs.
    destruct (kind_eqb (type s) TableRef); [discriminate |].
    destruct (kind_eqb (type s) TableRefList); [discriminate |].
    simpl. rewrite (IH Hplain). reflexivity. }
  rewrite Hargs. reflexivity.
Qed.

(** X11.  A list of table references that is missing, or is a scalar and
    not an array, makes [evaluate] throw a [TypeError] before any lookup in
    the catalog for it and before the table method is called. *)
Theorem evaluate_table_list_not_array (catalog : jsval -> jsval)
  (this : Verb) (pre : schema_t) (s : field) (post : schema_t) :
  schema this = (pre ++ s :: post)%list ->
  (forall s', s' ∈ pre ->
     exists y, resolve catalog (type s') (get_field this (name s')) = Ok y) ->
  type s = TableRefList ->
  primitive (get_field this (name s)) = true ->
  forall table, evaluate table catalog this = (Throw TypeError, this).
Proof.
  intros Hsch Hpre Htype Hprim table. rewrite evaluate_run. unfold resolved.
  rewrite Hsch.
  rewrite (rmap_first_throw
             (fun s => resolve catalog (type s) (get_field this (name s)))
             pre s post TypeError Hpre); [reflexivity |].
  unfold resolve. rewrite Htype. simpl.
  destruct (get_field this (name s)); try discriminate; reflexivity.
Qed.

(** *** Further properties of [Verb.from] *)

Lemma registry_names :
  Forall (fun kc => c_name (snd kc) = fst kc) Verbs.
Proof.
  unfold Verbs. repeat (apply Forall_cons_2; [reflexivity |]).
  apply Forall_nil_2.
Qed.

Lemma rmap_lookup {A B} (g : A -> result B) (l : list A) (ys : list B) :
  rmap g l = Ok ys ->
  forall (k : nat) (x : A), l !! k = Some x ->
    exists y, ys !! k = Some y /\ g x = Ok y.
Proof.
  revert ys. induction l as [| x0 l IH]; intros ys Hys k x Hk.
  - destruct k; discriminate.
  - simpl in Hys. destruct (g x0) as [y0 | e] eqn:Hy0; [| discriminate].
    simpl in Hys. destruct (rmap g l) as [ys' | e]; [| discriminate].
    injection Hys as <-. destruct k as [| k]; simpl in Hk.
    + injection Hk as <-. exists y0. split; [reflexivity | exact Hy0].
    + apply (IH ys' eq_refl k x Hk).
Qed.

Lemma rmap_ext_in {A B} (g h : A -> result B) (l : list A) :
  (forall x, x ∈ l -> g x = h x) -> rmap g l = rmap h l.
Proof.
  induction l as [| x l IH]; intros Hgh; simpl; [reflexivity |].
  rewrite (Hgh x) by left. rewrite IH; [reflexivity |].
  intros x' Hx'. apply Hgh. right. exact Hx'.
Qed.

(** X12.  A verb returned by [Verb.from] belongs to the class registered
    under the discriminator: it carries that verb name and the schema of
    that class, and each of its fields is what the constructor stores for
    the deserialized property of the same name, a missing property counting
    as [undefined]. *)
Theorem Verb_from_fields (object : object) (this : Verb) :
  Verb_from object = Ok (IVerb this) ->
  exists c,
    own_class Verbs (to_string (obj_get object "verb")) = Some c
    /\ verb this = to_string (obj_get object "verb")
    /\ schema this = from_option id [] (c_schema c)
    /\ forall s, s ∈ schema this ->
         exists z w,
           util_fromObject (obj_get object (name s)) = Ok z
           /\ normalize (type s) z = Ok w
           /\ get_field this (name s) = stored s w.
Proof.
  unfold Verb_from, Verbs_get. intros Hfrom.
  destruct (own_class Verbs (to_string (obj_get object "verb")))
    as [c |] eqn:Hown.
  2:{ destruct (String.eqb _ "constructor"); [discriminate |].
      destruct (existsb _ prototype_names); discriminate. }
  exists c. split; [reflexivity |].
  pose proof registry_names as Hnames. rewrite Forall_forall in Hnames.
  specialize (Hnames _ (own_class_In _ _ _ Hown)). cbn [fst snd] in Hnames.
  pose proof registry_well_formed as Hwf. rewrite Forall_forall in Hwf.
  destruct (Hwf _ (own_class_In _ _ _ Hown)) as (_ & Hnodup & _ & _).
  cbn [snd] in Hnodup.
  remember (from_option id [] (c_schema c)) as sch eqn:Hsch.
  destruct (rmap (fun s => util_fromObject (obj_get object (name s))) sch)
    as [zs | e] eqn:Hzs; [| discriminate].
  simpl in Hfrom.
  destruct (new_class c zs) as [v | e] eqn:Hnew; [| discriminate].
  injection Hfrom as ->.
  unfold new_class, new_Verb, constructor_body, forEach in Hnew.
  simpl in Hnew. rewrite <- Hsch in Hnew.
  destruct (forEach_from 0 sch (assign zs) (MkVerb (c_name c) sch ∅))
    as [[[] | e] this0] eqn:Hrun; [| discriminate].
  injection Hnew as ->.
  destruct (forEach_from_assign zs sch 0%nat (MkVerb (c_name c) sch ∅)
              (forEach_from_assign_inv _ _ _ _ _ Hrun))
    as (this' & Hrun' & Hverb & Hschema & _ & Hlast).
  rewrite Hrun in Hrun'. injection Hrun' as <-.
  simpl in Hverb, Hschema.
  split; [congruence |]. split; [exact Hschema |].
  rewrite Hschema. intros s Hs.
  apply list_elem_of_lookup in Hs as [k Hk].
  destruct (Hlast k s Hk) as (w & Hw & Hget).
  { intros j s' Hlt Hj Heq.
    apply (NoDup_lookup _ k j (name s)) in Hnodup; [lia | |].
    - rewrite list_lookup_fmap, Hk. reflexivity.
    - rewrite list_lookup_fmap, Hj. simpl. congruence. }
  destruct (rmap_lookup _ _ _ Hzs k s Hk) as (z & Hz & Hfromz).
  exists z, w. split; [exact Hfromz |].
  change (0 + k)%nat with k in Hw. unfold nth_param in Hw.
  rewrite Hz in Hw. simpl in Hw. split; [exact Hw |].
  unfold get_field. rewrite Hget. reflexivity.
Qed.

(** X13.  [Verb.from] reads the discriminator and the properties the
    schema of the class names, and nothing else: setting any other property
    of the object ([__proto__] apart, which is not an ordinary property)
    does not change what it returns. *)
Theorem Verb_from_other_property (object : object) (k : string) (v : jsval) :
  k <> "verb" ->
  k <> "__proto__" ->
  (forall c, own_class Verbs (to_string (obj_get object "verb")) = Some c ->
             k ∉ map name (from_option id [] (c_schema c))) ->
  Verb_from (obj_set object k v) = Verb_from object.
Proof.
  intros Hverb _ Hfield. unfold Verb_from.
  rewrite (obj_get_set_ne object k v "verb" Hverb).
  destruct (Verbs_get (to_string (obj_get object "verb")))
    as [c | | |] eqn:Hget;
    try reflexivity.
  assert (Hown : own_class Verbs (to_string (obj_get object "verb")) = Some c).
  { unfold Verbs_get in Hget.
    destruct (own_class Verbs (to_string (obj_get object "verb"))) as [c' |].
    - injection Hget as ->. reflexivity.
    - destruct (String.eqb _ "constructor"); [discriminate |].
      destruct (existsb _ prototype_names); discriminate. }
  specialize (Hfield c Hown).
  rewrite (rmap_ext_in
             (fun s => util_fromObject (obj_get (obj_set object k v) (name s)))
             (fun s => util_fromObject (obj_get object (name s))));
    [reflexivity |].
  intros s Hs. rewrite obj_get_set_ne; [reflexivity |].
  intros ->. apply Hfield. apply list_elem_of_fmap. eauto.
Qed.

(** X14.  [Verb.from] throws what [fromObject] throws on the first property
    it fails on, and builds no verb. *)
Theorem Verb_from_first_throw (object : object) (c : verbclass)
  (pre : schema_t) (s : field) (post : schema_t) (e : error) :
  own_class Verbs (to_string (obj_get object "verb")) = Some c ->
  from_option id [] (c_schema c) = (pre ++ s :: post)%list ->
  (forall s', s' ∈ pre ->
     exists z, util_fromObject (obj_get object (name s')) = Ok z) ->
  util_fromObject (obj_get object (name s)) = Throw e ->
  Verb_from object = Throw e.
Proof.
  intros Hown Hsch Hpre Hs. unfold Verb_from, Verbs_get.
  rewrite Hown, Hsch.
  rewrite (rmap_first_throw
             (fun s => util_fromObject (obj_get object (name s)))
             pre s post e Hpre Hs).
  reflexivity.
Qed.

(** X15.  For a verb built by a registered class, when for every field the
    helpers take the stored value back to itself ([toObject], then
    [fromObject], then the normalizer and the default of the entry),
    [Verb.from] applied to what [toObject] returns rebuilds that very verb:
    the same verb name, schema and field values. *)
Theorem Verb_from_toObject_rebuilds (key : string) (c : verbclass)
  (params : list jsval) (this : Verb) :
  own_class Verbs key = Some c ->
  new_class c params = Ok this ->
  (forall s, s ∈ from_option id [] (c_schema c) ->
     exists y z w,
       util_toObject (get_field this (name s)) = Ok y
       /\ util_fromObject y = Ok z
       /\ normalize (type s) z = Ok w
       /\ stored s w = get_field this (name s)) ->
  exists o,
    toObject this = (Ok (VObj o), this)
    /\ Verb_from o = Ok (IVerb this).
Proof.
  intros Hown Hnew Hback.
  pose proof registry_well_formed as Hwf.
  rewrite Forall_forall in Hwf.
  destruct (Hwf (key, c) (own_class_In _ _ _ Hown))
    as (Hreg & Hnodup & Hverb & _).
  cbn [snd] in Hreg, Hnodup, Hverb.
  exact (from_toObject c params this Hreg Hnodup Hverb Hnew Hback).
Qed.

Lemma filled_frame f this (sch : schema_t) :
  forall (obj o' : object) (key : string),
    filled f this sch obj = Ok o' ->
    key ∉ map name sch ->
    obj_get o' key = obj_get obj key.
Proof.
  induction sch as [| s0 sch IH]; intros obj o' key Hrun Hkey; simpl in *.
  - injection Hrun as <-. reflexivity.
  - apply not_elem_of_cons in Hkey as [Hne Hkey].
    destruct (f s0 (get_field this (name s0))) as [y0 | e]; [| discriminate].
    simpl in Hrun. rewrite (IH _ _ _ Hrun Hkey).
    apply obj_get_set_ne. congruence.
Qed.

(** X17.  What [toObject] returns for a verb whose name is not registered
    cannot be turned back into a verb: [Verb.from] looks the class up by the
    verb name that [toObject] wrote, and throws a [TypeError]. *)
Theorem Verb_from_toObject_unregistered (this : Verb) (o : object) :
  toObject this = (Ok (VObj o), this) ->
  ordinary (schema this) = true ->
  own_class Verbs (verb this) = None ->
  verb this <> "constructor" ->
  Verb_from o = Throw TypeError.
Proof.
  intros Hto Hord Hown Hctor.
  pose proof (ordinary_not_verb _ Hord) as Hverb. rewrite toObject_run in Hto.
  unfold serialized in Hto.
  destruct (filled (fun _ value => util_toObject value) this (schema this)
              [("verb", VStr (verb this))]) as [o' | e] eqn:Hfill;
    [| discriminate].
  injection Hto as <-.
  pose proof (filled_frame _ _ _ _ _ "verb" Hfill Hverb) as Hkey.
  change (obj_get [("verb", VStr (verb this))] "verb")
    with (VStr (verb this)) in Hkey.
  unfold Verb_from, Verbs_get. rewrite Hkey.
  change (to_string (VStr (verb this))) with (verb this). rewrite Hown.
  apply String.eqb_neq in Hctor. rewrite Hctor.
  destruct (existsb _ prototype_names); reflexivity.
Qed.

End VerbJs.

(** ** Construction without normalizers *)

Lemma forEach_from_assign_plain
  (joinKeys joinValues orderbyKeys : jsval -> result jsval)
  (joinKeys' joinValues' orderbyKeys' : jsval -> result jsval)
  (params : list jsval) (sch : schema_t) :
  forallb (fun s => passes_through (type s)) sch = true ->
  forall (i : nat) (st : Verb),
    forEach_from i sch (assign joinKeys joinValues orderbyKeys params) st
    = forEach_from i sch (assign joinKeys' joinValues' orderbyKeys' params) st
    /\ exists st',
         forEach_from i sch (assign joinKeys joinValues orderbyKeys params) st
         = (Ok tt, st').
Proof.
  induction sch as [| s0 sch IH]; intros Hplain i st; simpl.
  - split; [reflexivity | eauto].
  - simpl in Hplain. apply andb_true_iff in Hplain as [Hs0 Hplain].
    assert (Hnorm : forall jk jv ok,
               normalize jk jv ok (type s0) (nth_param params i)
               = Ok (nth_param params i)).
    { intros jk jv ok. unfold normalize. unfold passes_through in Hs0.
      destruct (kind_eqb (type s0) JoinKeys); [discriminate |].
      destruct (kind_eqb (type s0) JoinValues); [discriminate |].
      destruct (kind_eqb (type s0) OrderbyKeys); [discriminate |].
      reflexivity. }
    unfold bind.
    rewrite (assign_ok _ _ _ _ _ _ _ _ (Hnorm joinKeys joinValues orderbyKeys)).
    rewrite (assign_ok _ _ _ _ _ _ _ _
               (Hnorm joinKeys' joinValues' orderbyKeys')).
    apply IH. exact Hplain.
Qed.

(** X16.  When no entry of the schema has a join-keys, join-values or
    orderby-keys kind, construction calls no normalizer: it cannot throw,
    and it returns the same verb whatever the normalizers are. *)
Theorem new_Verb_without_normalizers (verb0 : string) (sch : schema_t)
  (params : list jsval) :
  forallb (fun s => passes_through (type s)) sch = true ->
  exists this,
    forall joinKeys joinValues orderbyKeys,
      new_Verb joinKeys joinValues orderbyKeys verb0 (Some sch) (Some params)
      = Ok this.
Proof.
  intros Hplain.
  destruct (forEach_from_assign_plain pass pass pass pass pass pass
              params sch Hplain 0%nat (MkVerb verb0 sch ∅))
    as [_ [this Hthis]].
  exists this. intros jk jv ok.
  unfold new_Verb, constructor_body, forEach. simpl.
  destruct (forEach_from_assign_plain jk jv ok pass pass pass
              params sch Hplain 0%nat (MkVerb verb0 sch ∅)) as [-> _].
  rewrite Hthis. reflexivity.
Qed.

(** ** Evaluation *)

Lemma rmap_ok_map {A B} (f : A -> result B) (g : A -> B) (l : list A) :
  Forall (fun x => f x = Ok (g x)) l -> rmap f l = Ok (map g l).
Proof.
  induction 1 as [| x l Hx _ IH]; simpl; [reflexivity |].
  rewrite Hx. simpl. rewrite IH. reflexivity.
Qed.

Lemma resolve_replaced catalog type value :
  lookups_ok catalog type value = true ->
  resolve Util.getTable catalog type value = Ok (replaced catalog type value).
Proof.
  unfold resolve, Util.getTable.
  destruct type; simpl; intros Hok; try reflexivity.
  - rewrite Hok. reflexivity.
  - destruct value as [| | | | | items | | |]; try discriminate. simpl.
    rewrite (rmap_ok_map _ catalog); [reflexivity |].
    apply Forall_forall. intros t Ht.
    rewrite forallb_forall in Hok. rewrite (Hok t); [reflexivity |].
    apply list_elem_of_In. exact Ht.
Qed.

(** C2.  When every lookup finds a table, [evaluate] calls the table method
    named by the verb with, in schema order, the catalog's answer for each
    table reference, the element-wise answers for each list of table
    references and the stored value of every other field, and returns what
    that method returns. *)
Theorem evaluate_resolves_then_invokes
  (table : string -> list jsval -> result jsval) (catalog : jsval -> jsval)
  (this : Verb) :
  forallb (fun s => lookups_ok catalog (type s) (get_field this (name s)))
    (schema this) = true ->
  fst (evaluate Util.getTable table catalog this)
  = table (verb this)
      (map (fun s => replaced catalog (type s) (get_field this (name s)))
         (schema this)).
Proof.
  intros Hok. rewrite evaluate_run. simpl. unfold resolved.
  rewrite (rmap_ok_map _
             (fun s => replaced catalog (type s) (get_field this (name s)))).
  - reflexivity.
  - apply Forall_forall. intros s Hs. apply resolve_replaced.
    rewrite forallb_forall in Hok. apply Hok. apply list_elem_of_In. exact Hs.
Qed.

(** ** Normalizing join keys *)

(** C6.  The join-keys normalizer turns a single name into the same
    singleton list on both sides, takes a pair of lists of equal length as
    the two sides verbatim, throws [MismatchedJoinArityError] on a pair of
    lists of different lengths, and whenever it returns, the two sides it
    returns have the same length. *)
Theorem joinKeys_normalizes :
  (forall a : string,
      Util.joinKeys (VStr a) = Ok (Util.sides [VStr a] [VStr a]))
  /\ (forall lhs rhs : list jsval,
        length lhs = length rhs ->
        Util.joinKeys (VArr [VArr lhs; VArr rhs])
        = Ok (Util.sides lhs rhs))
  /\ (forall lhs rhs : list jsval,
        length lhs <> length rhs ->
        Util.joinKeys (VArr [VArr lhs; VArr rhs])
        = Throw MismatchedJoinArityError)
  /\ (forall input out : jsval,
        Util.joinKeys input = Ok out ->
        exists lhs rhs : list jsval,
          out = Util.sides lhs rhs /\ length lhs = length rhs).
Proof.
  split; [reflexivity |]. split; [| split].
  - intros lhs rhs Hlen. simpl.
    apply Nat.eqb_eq in Hlen. rewrite Hlen. reflexivity.
  - intros lhs rhs Hlen. simpl.
    apply Nat.eqb_neq in Hlen. rewrite Hlen. reflexivity.
  - intros input out Hout.
    assert (Hsingle : forall single,
               Ok (Util.sides [single] [single]) = Ok out ->
               exists lhs rhs,
                 out = Util.sides lhs rhs /\ length lhs = length rhs).
    { intros single [= <-]. eauto. }
    assert (Hboth : forall names,
               Ok (Util.sides names names) = Ok out ->
               exists lhs rhs,
                 out = Util.sides lhs rhs /\ length lhs = length rhs).
    { intros names [= <-]. eauto. }
    unfold Util.joinKeys in Hout.
    repeat match type of Hout with
           | context [match ?v with _ => _ end] => is_var v; destruct v
           end; eauto.
    match type of Hout with
    | context [Nat.eqb ?n ?m] => destruct (Nat.eqb n m) eqn:Hlen
    end; [| discriminate].
    injection Hout as <-. apply Nat.eqb_eq in Hlen. eauto.
Qed.

(** ** Object serialization *)

Lemma toObject_transportable (v : jsval) :
  transportable (Util.toObject v) = true.
Proof.
  induction v as [| | b | n | s | items IH | props IH | [src |] | name]
    using jsval_nested_ind; simpl; try reflexivity.
  - induction IH as [| x l Hx _ IHl]; simpl; [reflexivity |].
    rewrite Hx. exact IHl.
  - induction IH as [| kv l Hkv _ IHl]; simpl; [reflexivity |].
    rewrite Hkv. exact IHl.
Qed.

Lemma obj_set_transportable (o : object) (k : string) (v : jsval) :
  transportable (VObj o) = true -> transportable v = true ->
  transportable (VObj (obj_set o k v)) = true.
Proof.
  simpl. intros Ho Hv. induction o as [| [k' v'] o IH]; simpl.
  - rewrite Hv. reflexivity.
  - simpl in Ho. apply andb_true_iff in Ho as [Hv' Ho].
    destruct (String.eqb k' k); simpl.
    + rewrite Hv, Ho. reflexivity.
    + rewrite Hv', (IH Ho). reflexivity.
Qed.

Lemma filled_transportable (this : Verb) (sch : schema_t) :
  forall obj : object,
    transportable (VObj obj) = true ->
    exists obj',
      filled (fun _ value => Ok (Util.toObject value)) this sch obj
      = Ok obj'
      /\ transportable (VObj obj') = true.
Proof.
  induction sch as [| s sch IH]; intros obj Hobj; simpl.
  - exists obj. split; [reflexivity | exact Hobj].
  - apply IH. apply obj_set_transportable; [exact Hobj |].
    apply toObject_transportable.
Qed.

(** C5.  [toObject] of any verb returns, and the object it returns holds no
    callable and no live table handle at any depth: a table reference is
    there by its name. *)
Theorem toObject_output_transportable (this : Verb) :
  exists obj : object,
    toObject (fun value => Ok (Util.toObject value)) this
    = (Ok (VObj obj), this)
    /\ transportable (VObj obj) = true
    /\ (forall name, Util.toObject (VTable name) = VStr name).
Proof.
  destruct (filled_transportable this (schema this)
              [("verb", VStr (verb this))] eq_refl) as (obj & Hrun & Hobj).
  exists obj. rewrite toObject_run. unfold serialized. rewrite Hrun.
  repeat split. exact Hobj.
Qed.

(** ** Tree serialization fails on an expression without source text *)

Lemma throws_only_Ok {A} e0 (a : A) : throws_only e0 (Ok a).
Proof. intros e H. discriminate. Qed.

Lemma throws_only_rbind {A B} e0 (r : result A) (k : A -> result B) :
  throws_only e0 r -> (forall a, throws_only e0 (k a)) ->
  throws_only e0 (rbind r k).
Proof.
  intros Hr Hk e. destruct r as [a | e']; simpl.
  - apply Hk.
  - intros [= <-]. apply Hr. reflexivity.
Qed.

Lemma throws_only_rmap {A B} e0 (f : A -> result B) (l : list A) :
  (forall x, throws_only e0 (f x)) -> throws_only e0 (rmap f l).
Proof.
  intros Hf. induction l as [| x l IH]; simpl.
  - apply throws_only_Ok.
  - apply throws_only_rbind; [apply Hf | intros y].
    apply throws_only_rbind; [exact IH | intros ys; apply throws_only_Ok].
Qed.

Lemma is_throw_rbind {A B} (r : result A) (k : A -> result B) :
  is_throw r = true -> is_throw (rbind r k) = true.
Proof. destruct r; [discriminate | reflexivity]. Qed.

Lemma is_throw_rmap {A B} (f : A -> result B) (l : list A) :
  existsb (fun x => is_throw (f x)) l = true -> is_throw (rmap f l) = true.
Proof.
  induction l as [| x l IH]; simpl; [discriminate |].
  intros H. destruct (f x) as [y | e]; simpl in *; [| reflexivity].
  apply is_throw_rbind. apply IH. exact H.
Qed.

Section ToAstFacts.
Variable parse : string -> jsval.

Let only (r : result jsval) := throws_only UnparsableExpressionError r.

Lemma expression_only e : only (ToAst.expression parse e).
Proof.
  unfold only, ToAst.expression.
  destruct (ToAst.is_expression e); [| apply throws_only_Ok].
  destruct (ToAst.source_text e); [apply throws_only_Ok |].
  intros e' [= <-]. reflexivity.
Qed.

Lemma expressions_only v : only (ToAst.expressions parse v).
Proof.
  unfold only. destruct v; try apply expression_only. simpl.
  apply throws_only_rbind; [| intros; apply throws_only_Ok].
  apply throws_only_rmap. apply expression_only.
Qed.

Lemma entries_only f props :
  (forall v, only (f v)) ->
  throws_only UnparsableExpressionError (ToAst.entries f props).
Proof.
  intros Hf. induction props as [| [k v] props IH]; simpl.
  - apply throws_only_Ok.
  - apply throws_only_rbind; [apply Hf | intros n].
    apply throws_only_rbind; [exact IH | intros; apply throws_only_Ok].
Qed.

Lemma expression_map_only v : only (ToAst.expression_map parse v).
Proof.
  unfold only. destruct v; try apply expression_only. simpl.
  apply throws_only_rbind; [| intros; apply throws_only_Ok].
  apply entries_only. apply expression_only.
Qed.

Lemma orderby_child_only v : only (ToAst.orderby_child parse v).
Proof.
  unfold only. destruct v; try apply expression_only. simpl.
  apply throws_only_rbind; [apply expression_only |].
  intros; apply throws_only_Ok.
Qed.

Lemma node_only value type : only (ToAst.node parse value type).
Proof.
  unfold only. destruct type; simpl;
    try apply expression_only; try apply expressions_only;
    try apply expression_map_only; try apply throws_only_Ok.
  - destruct value; try apply throws_only_Ok.
    apply throws_only_rbind; [apply expressions_only | intros l].
    apply throws_only_rbind; [apply expressions_only | intros r].
    apply throws_only_Ok.
  - destruct value; try apply throws_only_Ok.
    apply throws_only_rbind; [apply expressions_only | intros l].
    apply throws_only_rbind; [apply expressions_only | intros r].
    apply throws_only_Ok.
  - destruct value; try apply throws_only_Ok.
    apply throws_only_rbind; [| intros; apply throws_only_Ok].
    apply throws_only_rmap. apply orderby_child_only.
  - destruct value; apply throws_only_Ok.
Qed.

Lemma option_nodes_only props options :
  throws_only UnparsableExpressionError
    (ToAst.option_nodes parse props options).
Proof.
  induction options as [| [k v] options IH]; simpl.
  - apply throws_only_Ok.
  - apply throws_only_rbind.
    + destruct (ToAst.sub_kind props k);
        [apply node_only | apply throws_only_Ok].
    + intros n.
      apply throws_only_rbind; [exact IH | intros; apply throws_only_Ok].
Qed.

Lemma toAST_only value type props :
  only (ToAst.toAST parse value type props).
Proof.
  unfold only, ToAst.toAST.
  destruct type; try apply node_only.
  destruct value; try apply node_only.
  apply throws_only_rbind; [apply option_nodes_only |].
  intros; apply throws_only_Ok.
Qed.

Lemma expression_sourceless e :
  ToAst.sourceless e = true -> is_throw (ToAst.expression parse e) = true.
Proof.
  unfold ToAst.sourceless, ToAst.expression.
  destruct (ToAst.is_expression e); [| discriminate].
  destruct (ToAst.source_text e); [discriminate | reflexivity].
Qed.

Lemma entries_sourceless props :
  existsb (fun kv => ToAst.sourceless (snd kv)) props = true ->
  is_throw (ToAst.entries (ToAst.expression parse) props) = true.
Proof.
  induction props as [| [k v] props IH]; simpl; [discriminate |].
  intros H. destruct (ToAst.sourceless v) eqn:Hv; simpl in H.
  - apply is_throw_rbind. apply expression_sourceless. exact Hv.
  - destruct (ToAst.expression parse v); simpl; [| reflexivity].
    apply is_throw_rbind. apply IH. exact H.
Qed.

Lemma toAST_sourceless value type props :
  ToAst.holds_sourceless type value = true ->
  is_throw (ToAst.toAST parse value type props) = true.
Proof.
  unfold ToAst.holds_sourceless. intros H.
  apply andb_true_iff in H as [Hkind H].
  destruct type; try discriminate; simpl.
  - apply expression_sourceless. exact H.
  - destruct value; try (apply expression_sourceless; exact H). simpl.
    apply is_throw_rbind. apply is_throw_rmap.
    rewrite existsb_exists in *. destruct H as (x & Hx & Hs).
    exists x. split; [exact Hx |]. apply expression_sourceless. exact Hs.
  - apply expression_sourceless. exact H.
  - destruct value; try (apply expression_sourceless; exact H). simpl.
    apply is_throw_rbind. apply entries_sourceless. exact H.
Qed.

End ToAstFacts.

Lemma filled_throws (e0 : error) (f : field -> jsval -> result jsval)
  (this : Verb) (sch : schema_t) :
  (forall s v, throws_only e0 (f s v)) ->
  forall obj : object,
    existsb (fun s => is_throw (f s (get_field this (name s)))) sch = true ->
    filled f this sch obj = Throw e0.
Proof.
  intros Hf. induction sch as [| s sch IH]; intros obj H; simpl in *.
  - discriminate.
  - destruct (f s (get_field this (name s))) as [v | e] eqn:Hs; simpl in *.
    + apply IH. exact H.
    + f_equal. apply (Hf s (get_field this (name s))). exact Hs.
Qed.

(** C8.  When a field of an expression kind holds an expression that has no
    retrievable source text, [toAST] throws [UnparsableExpressionError]: no
    tree is returned, and the field is neither dropped nor turned into a
    literal. *)
Theorem toAST_fails_without_source (parse : string -> jsval) (this : Verb) :
  existsb (fun s => ToAst.holds_sourceless (type s) (get_field this (name s)))
    (schema this) = true ->
  toAST (ToAst.toAST parse) this = (Throw UnparsableExpressionError, this).
Proof.
  intros H. rewrite toAST_run. unfold serialized.
  rewrite (filled_throws UnparsableExpressionError); [reflexivity | |].
  - intros s v. apply toAST_only.
  - rewrite existsb_exists in *. destruct H as (s & Hs & Hholds).
    exists s. split; [exact Hs |]. apply toAST_sourceless. exact Hholds.
Qed.

(** ** The registry and [reify] *)

Lemma own_class_registered (key : string) :
  key ∈ registered <-> exists c, own_class Verbs key = Some c.
Proof.
  unfold registered. generalize Verbs as table.
  induction table as [| [k c] table IH]; simpl.
  - split; [intros H; inversion H | intros [c H]; discriminate].
  - rewrite elem_of_cons, IH. destruct (String.eqb k key) eqn:Hk.
    + apply String.eqb_eq in Hk. subst. split; eauto.
    + apply String.eqb_neq in Hk. split.
      * intros [-> | H]; [congruence | exact H].
      * intros H. right. exact H.
Qed.

Lemma registered_can_succeed :
  forallb (fun key =>
             makes_verb (Verb_from pass pass pass pass [("verb", VStr key)]))
    registered = true.
Proof. vm_compute. reflexivity. Qed.

(** C10 (as amended).  A [Reify] verb can be built and serialized, the
    object it serializes to is rejected by [Verb.from], and [Verb.from] can
    return a verb for exactly the names of the registry, which are 24
    distinct names without [reify]. *)
Theorem reify_outside_registry :
  (forall util_toObject joinKeys joinValues orderbyKeys params,
      exists this,
        new_class joinKeys joinValues orderbyKeys Reify params = Ok this
        /\ toObject util_toObject this
           = (Ok (VObj [("verb", VStr "reify")]), this))
  /\ (forall util_fromObject joinKeys joinValues orderbyKeys,
        Verb_from util_fromObject joinKeys joinValues orderbyKeys
          [("verb", VStr "reify")] = Throw TypeError)
  /\ ("reify" ∉ registered)
  /\ NoDup registered
  /\ length registered = 24%nat
  /\ (forall key : string,
        key ∈ registered <->
        exists util_fromObject joinKeys joinValues orderbyKeys object this,
          to_string (obj_get object "verb") = key
          /\ Verb_from util_fromObject joinKeys joinValues orderbyKeys object
             = Ok (IVerb this)).
Proof.
  split; [| split; [| split; [| split; [| split]]]].
  - intros f jk jv ok params. eexists. split; reflexivity.
  - reflexivity.
  - intros H. apply own_class_registered in H as [c H]. discriminate.
  - apply (bool_decide_unpack _). vm_compute. reflexivity.
  - reflexivity.
  - intros key. split.
    + intros Hkey.
      pose proof registered_can_succeed as Hall.
      rewrite forallb_forall in Hall.
      apply list_elem_of_In in Hkey. specialize (Hall key Hkey).
      exists pass, pass, pass, pass, [("verb", VStr key)].
      destruct (Verb_from pass pass pass pass [("verb", VStr key)])
        as [[this | o] | e] eqn:Hfrom; try discriminate.
      exists this. split; [reflexivity | reflexivity].
    + intros (f & jk & jv & ok & object & this & Hkey & Hfrom).
      apply own_class_registered. unfold Verb_from, Verbs_get in Hfrom.
      rewrite Hkey in Hfrom.
      destruct (own_class Verbs key) as [c |]; [eauto |].
      destruct (String.eqb key "constructor"); [discriminate |].
      destruct (existsb _ prototype_names); discriminate.
Qed.

(** C10, as stated: the registry does not have 23 names. *)
Lemma registry_size_not_23 : length registered <> 23%nat.
Proof. vm_compute. discriminate. Qed.

(** ** Where the code departs from the stated behaviour *)

(** C3, as stated: [new Dedupe(null)] keeps [null] in [keys], where the
    nullish rule gives the default [[]]. *)
Lemma Dedupe_null_keeps_null :
  exists this,
    new_class pass pass pass Dedupe [VNull] = Ok this
    /\ get_field this "keys" = VNull
    /\ get_field this "keys" <> nullish_or VNull (VArr []).
Proof.
  eexists. split; [reflexivity |]. split; [reflexivity |].
  vm_compute. discriminate.
Qed.

(** C4, as stated: an unknown verb name makes [Verb.from] throw a
    [TypeError], not an [UnknownVerbError]; and for the name [constructor],
    which is no key of the registry either, it does not throw. *)
Lemma Verb_from_unknown_verb_TypeError :
  own_class Verbs "unknown_verb" = None
  /\ Verb_from pass pass pass pass [("verb", VStr "unknown_verb")]
     = Throw TypeError
  /\ Verb_from pass pass pass pass [("verb", VStr "unknown_verb")]
     <> Throw UnknownVerbError
  /\ own_class Verbs "constructor" = None
  /\ Verb_from pass pass pass pass [("verb", VStr "constructor")]
     = Ok (IObject []).
Proof.
  repeat split; try reflexivity. vm_compute. discriminate.
Qed.

(** ** The theorems at concrete verbs *)

Lemma evaluate_resolves_then_invokes_witness :
  forallb (fun s => lookups_ok sample_catalog (type s)
                      (get_field sample_concat (name s)))
    (schema sample_concat) = true
  /\ fst (evaluate Util.getTable sample_table sample_catalog sample_concat)
     = Ok (VArr [VStr "concat"; VArr [VTable "a"; VTable "b"]]).
Proof.
  split; [reflexivity |].
  rewrite (evaluate_resolves_then_invokes sample_table sample_catalog
             sample_concat); reflexivity.
Defined.

Lemma new_Verb_stores_witness :
  ordinary semijoin_schema = true
  /\ exists this,
    new_Verb Util.joinKeys pass pass "semijoin" (Some semijoin_schema)
      (Some [VStr "other"; VStr "a"]) = Ok this
    /\ verb this = "semijoin"
    /\ schema this = semijoin_schema
    /\ get_field this "table" = VStr "other"
    /\ get_field this "on" = Util.sides [VStr "a"] [VStr "a"].
Proof.
  destruct (new_Verb_stores Util.joinKeys pass pass "semijoin"
              semijoin_schema [VStr "other"; VStr "a"])
    as (_ & _ & _ & _ & Hnew).
  split; [reflexivity |].
  destruct Hnew as (this & Hthis & Hverb & Hschema & Hfields).
  { reflexivity. }
  { intros [| [| k]] s Hk; simpl in Hk; try discriminate;
      injection Hk as <-; eexists; reflexivity. }
  exists this. split; [exact Hthis |]. split; [exact Hverb |].
  split; [exact Hschema |].
  vm_compute in Hthis. injection Hthis as <-. split; reflexivity.
Defined.

Lemma Verb_immutable_witness :
  fld "tables" TableRefList ∈ schema sample_concat
  /\ get_field
       (run_calls pass Util.getTable (ToAst.toAST sample_parse)
          [CallToObject; CallEvaluate sample_table sample_catalog; CallToAST;
           CallEvaluate sample_table sample_catalog]
          sample_concat) "tables"
     = VArr [VStr "a"; VStr "b"].
Proof.
  split; [apply list_elem_of_here |].
  destruct (Verb_immutable pass Util.getTable (ToAst.toAST sample_parse)
              [CallToObject; CallEvaluate sample_table sample_catalog;
               CallToAST; CallEvaluate sample_table sample_catalog]
              sample_concat) as (_ & _ & Hfields).
  exact (Hfields (fld "tables" TableRefList) (list_elem_of_here _ _)).
Defined.

Lemma Verb_from_unregistered_witness :
  own_class Verbs (to_string (obj_get [("verb", VStr "unknown_verb")] "verb"))
  = None
  /\ to_string (obj_get [("verb", VStr "unknown_verb")] "verb") <> "constructor"
  /\ Verb_from pass pass pass pass
       [("verb", VStr "unknown_verb")] = Throw TypeError.
Proof.
  split; [reflexivity |]. split; [vm_compute; discriminate |].
  apply Verb_from_unregistered; [reflexivity | vm_compute; discriminate].
Defined.

Lemma joinKeys_normalizes_witness :
  Util.joinKeys (VStr "a") = Ok (Util.sides [VStr "a"] [VStr "a"])
  /\ Util.joinKeys
       (VArr [VArr [VStr "a"; VStr "b"]; VArr [VStr "c"; VStr "d"]])
     = Ok (Util.sides [VStr "a"; VStr "b"] [VStr "c"; VStr "d"])
  /\ Util.joinKeys (VArr [VArr [VStr "a"]; VArr [VStr "c"; VStr "d"]])
     = Throw MismatchedJoinArityError.
Proof.
  destruct joinKeys_normalizes as (Hname & Hpair & Hmismatch & _).
  split; [apply Hname |].
  split; [apply Hpair; reflexivity | apply Hmismatch; simpl; lia].
Defined.

Lemma toAST_fails_without_source_witness :
  existsb (fun s => ToAst.holds_sourceless (type s)
                      (get_field sample_filter (name s)))
    (schema sample_filter) = true
  /\ toAST (ToAst.toAST sample_parse) sample_filter
     = (Throw UnparsableExpressionError, sample_filter).
Proof.
  split; [reflexivity |].
  apply toAST_fails_without_source. reflexivity.
Defined.

Lemma reify_outside_registry_witness :
  "count" ∈ registered
  /\ exists util_fromObject joinKeys joinValues orderbyKeys object this,
       to_string (obj_get object "verb") = "count"
       /\ Verb_from util_fromObject joinKeys joinValues orderbyKeys object
          = Ok (IVerb this).
Proof.
  assert (Hcount : "count" ∈ registered) by apply list_elem_of_here.
  split; [exact Hcount |].
  destruct reify_outside_registry as (_ & _ & _ & _ & _ & Hiff).
  apply Hiff. exact Hcount.
Defined.

(** A mismatch of join keys surfaces when the verb is constructed. *)
Example Join_mismatched_keys_throw :
  new_class Util.joinKeys pass pass Join
    [VStr "other"; VArr [VArr [VStr "a"]; VArr [VStr "c"; VStr "d"]]]
  = Throw MismatchedJoinArityError.
Proof. reflexivity. Qed.

(** A lookup that finds no table ends [evaluate]. *)
Example evaluate_unresolved_table :
  fst (evaluate Util.getTable sample_table (fun _ => VUndef) sample_concat)
  = Throw UnresolvedTableError.
Proof. reflexivity. Qed.

(** The two helper laws hold of helpers that return their argument, and
    with them every registered verb is rebuilt from its serialization. *)
Example round_trip_with_plain_helpers (key : string) (c : verbclass)
  (params : list jsval) (this : Verb) :
  own_class Verbs key = Some c ->
  new_class pass pass pass c params = Ok this ->
  exists o,
    toObject pass this = (Ok (VObj o), this)
    /\ Verb_from pass pass pass pass o = Ok (IVerb this).
Proof.
  intros Hown Hnew.
  apply (round_trip_under_helper_laws pass pass pass pass pass key c params);
    try assumption.
  - intros x. exists x. split; reflexivity.
  - intros type param v. unfold normalize, pass.
    destruct (kind_eqb type JoinKeys), (kind_eqb type JoinValues),
      (kind_eqb type OrderbyKeys); intros [= <-]; reflexivity.
Qed.

(** ** The further properties at concrete verbs *)

Lemma new_Verb_first_throw_witness :
  new_Verb Util.joinKeys pass pass "join" (c_schema Join)
    (Some sample_join_params) = Throw MismatchedJoinArityError.
Proof.
  apply (new_Verb_first_throw Util.joinKeys pass pass "join" _
           sample_join_params 1%nat (fld "on" JoinKeys)).
  - reflexivity.
  - reflexivity.
  - intros [| j] s' Hlt Hj; [| lia]. simpl in Hj. injection Hj as <-.
    eexists. reflexivity.
Defined.

Lemma new_Verb_field_names_witness :
  exists this,
    new_Verb pass pass pass "sample" (c_schema Sample) (Some [VNum 5%Z])
    = Ok this
    /\ dom (fields this) = list_to_set ["size"; "options"].
Proof.
  destruct (new_Verb pass pass pass "sample" (c_schema Sample)
              (Some [VNum 5%Z])) as [this | e] eqn:Hnew; [| discriminate].
  exists this. split; [reflexivity |].
  apply (new_Verb_field_names pass pass pass "sample"
           (from_option id [] (c_schema Sample)) [VNum 5%Z] this);
    [reflexivity | exact Hnew].
Defined.

Lemma new_Verb_positional_witness :
  (length [fld "keys" ExprList] <= length [VArr [VStr "a"]])%nat
  /\ new_Verb pass pass pass "groupby" (Some [fld "keys" ExprList])
       (Some [VArr [VStr "a"]; VStr "ignored"])
     = new_Verb pass pass pass "groupby" (Some [fld "keys" ExprList])
         (Some [VArr [VStr "a"]]).
Proof.
  split; [simpl; lia |].
  destruct (new_Verb_positional pass pass pass "groupby"
              [fld "keys" ExprList] [VArr [VStr "a"]] [VStr "ignored"] 0%nat)
    as [Hextra _].
  apply Hextra. simpl. lia.
Defined.

Lemma toObject_entries_witness :
  toObject pass sample_concat
  = (Ok (VObj [("verb", VStr "concat");
               ("tables", VArr [VStr "a"; VStr "b"])]), sample_concat).
Proof.
  apply (toObject_entries pass sample_concat [VArr [VStr "a"; VStr "b"]]).
  - apply NoDup_singleton.
  - reflexivity.
  - reflexivity.
Defined.

Lemma toAST_entries_witness :
  toAST (ToAst.toAST sample_parse) sample_concat
  = (Ok (VObj [("verb", VStr "concat");
               ("tables", VArr [ToAst.literal (VStr "a");
                                ToAst.literal (VStr "b")])]), sample_concat).
Proof.
  apply (toAST_entries (ToAst.toAST sample_parse) sample_concat
           [VArr [ToAst.literal (VStr "a"); ToAst.literal (VStr "b")]]).
  - apply NoDup_singleton.
  - reflexivity.
  - reflexivity.
Defined.

Lemma toObject_first_throw_witness :
  toObject reject_callable sample_filter_callable
  = (Throw TypeError, sample_filter_callable).
Proof.
  apply (toObject_first_throw reject_callable sample_filter_callable []
           (fld "criteria" ExprObject) [] TypeError).
  - reflexivity.
  - intros s' Hs'. inversion Hs'.
  - reflexivity.
Defined.

Lemma toAST_first_throw_witness :
  toAST (ToAst.toAST sample_parse) sample_filter
  = (Throw UnparsableExpressionError, sample_filter).
Proof.
  apply (toAST_first_throw (ToAst.toAST sample_parse) sample_filter []
           (fld "criteria" ExprObject) [] UnparsableExpressionError).
  - reflexivity.
  - intros s' Hs'. inversion Hs'.
  - reflexivity.
Defined.

Lemma evaluate_first_throw_witness :
  evaluate Util.getTable sample_table (fun _ => VUndef) sample_concat
  = (Throw UnresolvedTableError, sample_concat).
Proof.
  apply (evaluate_first_throw Util.getTable (fun _ => VUndef) sample_concat []
           (fld "tables" TableRefList) [] UnresolvedTableError).
  - reflexivity.
  - intros s' Hs'. inversion Hs'.
  - reflexivity.
Defined.

Lemma evaluate_without_table_refs_witness :
  forallb (fun s => negb (table_kind (type s))) (schema sample_filter) = true
  /\ evaluate Util.getTable sample_table sample_catalog sample_filter
     = (Ok (VArr [VStr "filter"; VObj [("p", VFunc None)]]), sample_filter).
Proof.
  split; [reflexivity |].
  apply (evaluate_without_table_refs Util.getTable sample_table sample_catalog
           sample_filter).
  reflexivity.
Defined.

Lemma evaluate_table_list_not_array_witness :
  new_class pass pass pass Concat [] = Ok sample_concat_empty
  /\ evaluate Util.getTable sample_table sample_catalog sample_concat_empty
     = (Throw TypeError, sample_concat_empty).
Proof.
  split; [reflexivity |].
  apply (evaluate_table_list_not_array Util.getTable sample_catalog
           sample_concat_empty [] (fld "tables" TableRefList) []).
  - reflexivity.
  - intros s' Hs'. inversion Hs'.
  - reflexivity.
  - reflexivity.
Defined.

Lemma Verb_from_fields_witness :
  exists this,
    Verb_from pass pass pass pass [("verb", VStr "dedupe")] = Ok (IVerb this)
    /\ verb this = "dedupe"
    /\ schema this = from_option id [] (c_schema Dedupe).
Proof.
  destruct (Verb_from pass pass pass pass [("verb", VStr "dedupe")])
    as [[this | o] | e] eqn:Hfrom; try discriminate.
  exists this. split; [reflexivity |].
  destruct (Verb_from_fields pass pass pass pass _ this Hfrom)
    as (c & Hown & Hverb & Hschema & _).
  split; [exact Hverb |].
  vm_compute in Hown. injection Hown as <-. exact Hschema.
Defined.

Lemma Verb_from_other_property_witness :
  Verb_from pass pass pass pass
    (obj_set [("verb", VStr "count")] "comment" (VStr "x"))
  = Verb_from pass pass pass pass [("verb", VStr "count")].
Proof.
  apply (Verb_from_other_property pass pass pass pass).
  - vm_compute. discriminate.
  - vm_compute. discriminate.
  - intros c Hown. vm_compute in Hown. injection Hown as <-.
    simpl. intros H. apply list_elem_of_singleton in H. discriminate.
Defined.

Lemma Verb_from_first_throw_witness :
  Verb_from reject_callable pass pass pass sample_filter_object
  = Throw TypeError.
Proof.
  apply (Verb_from_first_throw reject_callable pass pass pass
           sample_filter_object Filter [] (fld "criteria" ExprObject) []).
  - reflexivity.
  - reflexivity.
  - intros s' Hs'. inversion Hs'.
  - reflexivity.
Defined.

Lemma Verb_from_toObject_rebuilds_witness :
  exists this,
    new_class pass pass pass Filter [VFunc (Some "d => d.x > 1")] = Ok this
    /\ toObject (fun v => Ok (Util.toObject v)) this
       = (Ok (VObj sample_filter_wire), this)
    /\ Verb_from revive pass pass pass sample_filter_wire = Ok (IVerb this).
Proof.
  destruct (new_class pass pass pass Filter [VFunc (Some "d => d.x > 1")])
    as [this | e] eqn:Hnew; [| discriminate].
  destruct (Verb_from_toObject_rebuilds (fun v => Ok (Util.toObject v))
              revive pass pass pass "filter" Filter
              [VFunc (Some "d => d.x > 1")] this) as (o & Hto & Hfrom).
  - reflexivity.
  - exact Hnew.
  - intros s Hs. simpl in Hs. apply list_elem_of_singleton in Hs. subst s.
    vm_compute in Hnew. injection Hnew as <-.
    exists (VObj [("expr", VStr "d => d.x > 1")]),
      (VFunc (Some "d => d.x > 1")), (VFunc (Some "d => d.x > 1")).
    repeat split.
  - exists this. split; [reflexivity |].
    assert (Ho : o = sample_filter_wire).
    { vm_compute in Hnew. injection Hnew as <-.
      vm_compute in Hto. injection Hto as <-. reflexivity. }
    rewrite <- Ho. split; [exact Hto | exact Hfrom].
Defined.

Lemma new_Verb_without_normalizers_witness :
  forallb (fun s => passes_through (type s))
    (from_option id [] (c_schema Pivot)) = true
  /\ exists this,
       forall joinKeys joinValues orderbyKeys,
         new_Verb joinKeys joinValues orderbyKeys "pivot" (c_schema Pivot)
           (Some [VStr "k"; VStr "v"]) = Ok this.
Proof.
  split; [reflexivity |].
  apply (new_Verb_without_normalizers "pivot"
           (from_option id [] (c_schema Pivot)) [VStr "k"; VStr "v"]).
  reflexivity.
Defined.

Lemma Verb_from_toObject_unregistered_witness :
  toObject pass sample_custom
  = (Ok (VObj [("verb", VStr "custom"); ("keys", VArr [VStr "a"])]),
     sample_custom)
  /\ Verb_from pass pass pass pass
       [("verb", VStr "custom"); ("keys", VArr [VStr "a"])]
     = Throw TypeError.
Proof.
  split; [reflexivity |].
  apply (Verb_from_toObject_unregistered pass pass pass pass pass
           sample_custom).
  - reflexivity.
  - reflexivity.
  - reflexivity.
  - vm_compute. discriminate.
Defined.
